(** * Knot DNS: key records, zone measurement and the key-size policy

    A shallow embedding of
      - libdnssec's algorithm policy table (get_limits and its public API),
      - knot/zone/measure.c (zone size and maximal TTL accounting),
      - contrib/wire_ctx.h (the bounded wire reader/writer),
      - knot/dnssec/key_records.c (the DNSKEY/CDNSKEY/CDS/RRSIG families),
    with the properties the specification states about them. *)

From Stdlib Require Import ZArith List Bool Lia.
From Stdlib.Strings Require Import Byte.
Import ListNotations.

Local Open Scope Z_scope.

(** ** Error codes *)

(** [enum knot_error] of libknot/errcode.h, restricted to the codes the
    embedded sources name (plus the decode and validation errors used by
    the collaborators).  The C code only ever compares them for equality. *)
Inductive knot_error : Type :=
  | KNOT_EOK
  | KNOT_ENOMEM
  | KNOT_EINVAL
  | KNOT_EACCES
  | KNOT_ENOENT
  | KNOT_ERANGE
  | KNOT_ERROR
  | KNOT_EFEWDATA
  | KNOT_ESPACE
  | KNOT_EMALF
  | KNOT_ESOON_EXPIRE
  | KNOT_DNSSEC_ENOSIG
  | KNOT_DNSSEC_ENOKEY
  | KNOT_DNSSEC_ESIGN
  | KNOT_INVALID_KEY_ALGORITHM.

(** [ret == KNOT_EOK] *)
Definition knot_is_eok (ret : knot_error) : bool :=
  match ret with
  | KNOT_EOK => true
  | _ => false
  end.

(** [enum dnssec_error] of libdnssec/error.h, restricted likewise. *)
Inductive dnssec_error : Type :=
  | DNSSEC_EOK
  | DNSSEC_ENOMEM
  | DNSSEC_EINVAL
  | DNSSEC_ERROR
  | DNSSEC_INVALID_KEY_ALGORITHM
  | DNSSEC_SIGN_INIT_ERROR
  | DNSSEC_SIGN_ERROR.

Lemma knot_is_eok_true (ret : knot_error) :
  knot_is_eok ret = true <-> ret = KNOT_EOK.
Proof. destruct ret; simpl; split; congruence. Qed.

Lemma knot_is_eok_false (ret : knot_error) :
  knot_is_eok ret = false <-> ret <> KNOT_EOK.
Proof. destruct ret; simpl; split; congruence. Qed.

(** ** libdnssec: algorithm policy table *)

Module Algorithm.

(** [dnssec_key_algorithm_t] is a C enum, so any integer can be passed in.
    The named members carry the IANA DNSSEC algorithm numbers. *)
Definition dnssec_key_algorithm_t := Z.

Definition DNSSEC_KEY_ALGORITHM_RSA_SHA1 : dnssec_key_algorithm_t := 5.
Definition DNSSEC_KEY_ALGORITHM_RSA_SHA1_NSEC3 : dnssec_key_algorithm_t := 7.
Definition DNSSEC_KEY_ALGORITHM_RSA_SHA256 : dnssec_key_algorithm_t := 8.
Definition DNSSEC_KEY_ALGORITHM_RSA_SHA512 : dnssec_key_algorithm_t := 10.
Definition DNSSEC_KEY_ALGORITHM_ECDSA_P256_SHA256 : dnssec_key_algorithm_t := 13.
Definition DNSSEC_KEY_ALGORITHM_ECDSA_P384_SHA384 : dnssec_key_algorithm_t := 14.
Definition DNSSEC_KEY_ALGORITHM_ED25519 : dnssec_key_algorithm_t := 15.
Definition DNSSEC_KEY_ALGORITHM_ED448 : dnssec_key_algorithm_t := 16.

(** The RSA members, and all the members the table knows. *)
Definition rsa_algorithms : list dnssec_key_algorithm_t :=
  [ DNSSEC_KEY_ALGORITHM_RSA_SHA1; DNSSEC_KEY_ALGORITHM_RSA_SHA1_NSEC3;
    DNSSEC_KEY_ALGORITHM_RSA_SHA256; DNSSEC_KEY_ALGORITHM_RSA_SHA512 ].

Definition known_algorithms : list dnssec_key_algorithm_t :=
  rsa_algorithms ++
  [ DNSSEC_KEY_ALGORITHM_ECDSA_P256_SHA256; DNSSEC_KEY_ALGORITHM_ECDSA_P384_SHA384;
    DNSSEC_KEY_ALGORITHM_ED25519; DNSSEC_KEY_ALGORITHM_ED448 ].

(** [struct limits]; a NULL [validate] pointer is [None]. *)
Record limits : Type := {
  min : Z;
  max : Z;
  def : Z;
  validate : option (Z -> bool)
}.

Definition RSA : limits := {| min := 1024; max := 4096; def := 2048; validate := None |}.
Definition EC256 : limits := {| min := 256; max := 256; def := 256; validate := None |}.
Definition EC384 : limits := {| min := 384; max := 384; def := 384; validate := None |}.
Definition ED25519 : limits := {| min := 256; max := 256; def := 256; validate := None |}.
Definition ED448 : limits := {| min := 456; max := 456; def := 456; validate := None |}.

(** [get_limits]: the switch; [None] is the NULL of the default case. *)
Definition get_limits (algorithm : dnssec_key_algorithm_t) : option limits :=
  if (algorithm =? DNSSEC_KEY_ALGORITHM_RSA_SHA1)
     || (algorithm =? DNSSEC_KEY_ALGORITHM_RSA_SHA1_NSEC3)
     || (algorithm =? DNSSEC_KEY_ALGORITHM_RSA_SHA256)
     || (algorithm =? DNSSEC_KEY_ALGORITHM_RSA_SHA512) then Some RSA
  else if algorithm =? DNSSEC_KEY_ALGORITHM_ECDSA_P256_SHA256 then Some EC256
  else if algorithm =? DNSSEC_KEY_ALGORITHM_ECDSA_P384_SHA384 then Some EC384
  else if algorithm =? DNSSEC_KEY_ALGORITHM_ED25519 then Some ED25519
  else if algorithm =? DNSSEC_KEY_ALGORITHM_ED448 then Some ED448
  else None.

(** [dnssec_algorithm_reproducible] *)
Definition dnssec_algorithm_reproducible
    (algorithm : dnssec_key_algorithm_t) (enabled : bool) : bool :=
  if (algorithm =? DNSSEC_KEY_ALGORITHM_ED25519)
     || (algorithm =? DNSSEC_KEY_ALGORITHM_ED448) then true
  else if (algorithm =? DNSSEC_KEY_ALGORITHM_ECDSA_P256_SHA256)
          || (algorithm =? DNSSEC_KEY_ALGORITHM_ECDSA_P384_SHA384) then enabled
  else false.

(** [dnssec_algorithm_key_size_range].  An output pointer is [None] when it
    is NULL and [Some v] when it points to a cell holding [v]; the cells
    are returned next to the error code. *)
Definition dnssec_algorithm_key_size_range
    (algorithm : dnssec_key_algorithm_t) (min_ptr max_ptr : option Z)
    : dnssec_error * option Z * option Z :=
  match min_ptr, max_ptr with
  | None, None => (DNSSEC_EINVAL, min_ptr, max_ptr)
  | _, _ =>
    match get_limits algorithm with
    | None => (DNSSEC_INVALID_KEY_ALGORITHM, min_ptr, max_ptr)
    | Some limits =>
      (DNSSEC_EOK,
       match min_ptr with Some _ => Some (min limits) | None => None end,
       match max_ptr with Some _ => Some (max limits) | None => None end)
    end
  end.

(** [dnssec_algorithm_key_size_check] *)
Definition dnssec_algorithm_key_size_check
    (algorithm : dnssec_key_algorithm_t) (bits : Z) : bool :=
  match get_limits algorithm with
  | None => false
  | Some limits =>
    if (bits <? min limits) || (bits >? max limits) then false
    else
      match validate limits with
      | Some v => if negb (v bits) then false else true
      | None => true
      end
  end.

(** [dnssec_algorithm_key_size_default] *)
Definition dnssec_algorithm_key_size_default
    (algorithm : dnssec_key_algorithm_t) : Z :=
  match get_limits algorithm with
  | Some limits => def limits
  | None => 0
  end.

(** *** Properties of the policy table *)

Lemma get_limits_unknown (algorithm : dnssec_key_algorithm_t) :
  ~ In algorithm known_algorithms -> get_limits algorithm = None.
Proof.
  intros Hn. unfold get_limits.
  repeat match goal with
  | |- context [ ?a =? ?b ] =>
      destruct (Z.eqb_spec a b) as [E | _];
      [ exfalso; apply Hn; rewrite E; simpl; tauto | ]
  end.
  reflexivity.
Qed.

Lemma get_limits_known (algorithm : dnssec_key_algorithm_t) :
  In algorithm known_algorithms -> get_limits algorithm <> None.
Proof.
  simpl. intros H.
  repeat (destruct H as [H | H]; [ subst algorithm; discriminate | ]).
  contradiction.
Qed.

Lemma key_size_check_bounds (algorithm : dnssec_key_algorithm_t) (l : limits) (bits : Z) :
  get_limits algorithm = Some l -> validate l = None ->
  dnssec_algorithm_key_size_check algorithm bits
  = (min l <=? bits) && (bits <=? max l).
Proof.
  intros Hl Hv. unfold dnssec_algorithm_key_size_check. rewrite Hl, Hv.
  destruct (Z.ltb_spec bits (min l)), (Z.gtb_spec bits (max l)),
           (Z.leb_spec (min l) bits), (Z.leb_spec bits (max l));
    simpl; try reflexivity; lia.
Qed.

(** C8: the reproducible-signature flag is always true for Ed25519 and
    Ed448, equals the [enabled] argument for ECDSA P-256 and P-384, and is
    false for every other algorithm value, the RSA variants included. *)
Theorem reproducible_flag (enabled : bool) :
  dnssec_algorithm_reproducible DNSSEC_KEY_ALGORITHM_ED25519 enabled = true /\
  dnssec_algorithm_reproducible DNSSEC_KEY_ALGORITHM_ED448 enabled = true /\
  dnssec_algorithm_reproducible DNSSEC_KEY_ALGORITHM_ECDSA_P256_SHA256 enabled = enabled /\
  dnssec_algorithm_reproducible DNSSEC_KEY_ALGORITHM_ECDSA_P384_SHA384 enabled = enabled /\
  forall algorithm : dnssec_key_algorithm_t,
    algorithm <> DNSSEC_KEY_ALGORITHM_ED25519 ->
    algorithm <> DNSSEC_KEY_ALGORITHM_ED448 ->
    algorithm <> DNSSEC_KEY_ALGORITHM_ECDSA_P256_SHA256 ->
    algorithm <> DNSSEC_KEY_ALGORITHM_ECDSA_P384_SHA384 ->
    dnssec_algorithm_reproducible algorithm enabled = false.
Proof.
  repeat split; try reflexivity.
  intros algorithm H1 H2 H3 H4. unfold dnssec_algorithm_reproducible.
  destruct (Z.eqb_spec algorithm DNSSEC_KEY_ALGORITHM_ED25519); [contradiction|].
  destruct (Z.eqb_spec algorithm DNSSEC_KEY_ALGORITHM_ED448); [contradiction|].
  destruct (Z.eqb_spec algorithm DNSSEC_KEY_ALGORITHM_ECDSA_P256_SHA256); [contradiction|].
  destruct (Z.eqb_spec algorithm DNSSEC_KEY_ALGORITHM_ECDSA_P384_SHA384); [contradiction|].
  reflexivity.
Qed.

(** The flag stays false for RSA/SHA-256 even when reproducible signing is
    enabled. *)
Lemma reproducible_flag_witness :
  dnssec_algorithm_reproducible DNSSEC_KEY_ALGORITHM_RSA_SHA256 true = false.
Proof.
  apply (proj2 (proj2 (proj2 (proj2 (reproducible_flag true))))); discriminate.
Defined.

(** The range query with no output location at all is refused as an invalid
    argument before the table is consulted, whatever the algorithm. *)
Lemma key_size_range_no_output (algorithm : dnssec_key_algorithm_t) :
  dnssec_algorithm_key_size_range algorithm None None = (DNSSEC_EINVAL, None, None).
Proof. reflexivity. Qed.

(** C7 as stated does not hold: for the unrecognized algorithm 0 and two
    NULL output pointers the range query answers DNSSEC_EINVAL, not the
    invalid-algorithm error. *)
Lemma key_size_range_unknown_not_always_invalid_algorithm :
  ~ (forall (algorithm : dnssec_key_algorithm_t) (min_ptr max_ptr : option Z),
       ~ In algorithm known_algorithms ->
       fst (fst (dnssec_algorithm_key_size_range algorithm min_ptr max_ptr))
       = DNSSEC_INVALID_KEY_ALGORITHM).
Proof.
  intros H. specialize (H 0 None None). simpl in H.
  assert (E : DNSSEC_EINVAL = DNSSEC_INVALID_KEY_ALGORITHM).
  { apply H. intros Hin.
    repeat (destruct Hin as [Hin | Hin]; [discriminate Hin | ]). exact Hin. }
  discriminate E.
Qed.

(** C7 (amended): a key size is accepted exactly within the bounds of the
    algorithm's family, with the family's default: RSA variants 1024..4096
    and 2048, ECDSA P-256 exactly 256, ECDSA P-384 exactly 384, Ed25519
    exactly 256, Ed448 exactly 456.  For an unrecognized algorithm the size
    check is false, the default size is 0, and the range query fails with
    the invalid-algorithm error whenever it is given at least one output
    location, leaving the outputs untouched. *)
Theorem key_size_policy (bits : Z) :
  Forall (fun a =>
            dnssec_algorithm_key_size_check a bits = (1024 <=? bits) && (bits <=? 4096)
            /\ dnssec_algorithm_key_size_default a = 2048
            /\ dnssec_algorithm_key_size_range a (Some 0) (Some 0)
               = (DNSSEC_EOK, Some 1024, Some 4096))
         rsa_algorithms /\
  (dnssec_algorithm_key_size_check DNSSEC_KEY_ALGORITHM_ECDSA_P256_SHA256 bits = (bits =? 256)
   /\ dnssec_algorithm_key_size_default DNSSEC_KEY_ALGORITHM_ECDSA_P256_SHA256 = 256) /\
  (dnssec_algorithm_key_size_check DNSSEC_KEY_ALGORITHM_ECDSA_P384_SHA384 bits = (bits =? 384)
   /\ dnssec_algorithm_key_size_default DNSSEC_KEY_ALGORITHM_ECDSA_P384_SHA384 = 384) /\
  (dnssec_algorithm_key_size_check DNSSEC_KEY_ALGORITHM_ED25519 bits = (bits =? 256)
   /\ dnssec_algorithm_key_size_default DNSSEC_KEY_ALGORITHM_ED25519 = 256) /\
  (dnssec_algorithm_key_size_check DNSSEC_KEY_ALGORITHM_ED448 bits = (bits =? 456)
   /\ dnssec_algorithm_key_size_default DNSSEC_KEY_ALGORITHM_ED448 = 456) /\
  (forall algorithm : dnssec_key_algorithm_t,
     ~ In algorithm known_algorithms ->
     dnssec_algorithm_key_size_check algorithm bits = false
     /\ dnssec_algorithm_key_size_default algorithm = 0
     /\ forall min_ptr max_ptr : option Z,
          min_ptr <> None \/ max_ptr <> None ->
          dnssec_algorithm_key_size_range algorithm min_ptr max_ptr
          = (DNSSEC_INVALID_KEY_ALGORITHM, min_ptr, max_ptr)).
Proof.
  assert (Hfix : forall a l n, get_limits a = Some l -> validate l = None ->
                   min l = n -> max l = n ->
                   dnssec_algorithm_key_size_check a bits = (bits =? n)).
  { intros a l n Hl Hv Hmin Hmax.
    rewrite (key_size_check_bounds a l bits Hl Hv), Hmin, Hmax.
    destruct (Z.leb_spec n bits), (Z.leb_spec bits n), (Z.eqb_spec bits n);
      simpl; try reflexivity; lia. }
  split; [ | split; [ | split; [ | split; [ | split ] ] ] ].
  - repeat constructor;
      apply (key_size_check_bounds _ RSA bits); reflexivity.
  - split; [ apply (Hfix _ EC256 256) | ]; reflexivity.
  - split; [ apply (Hfix _ EC384 384) | ]; reflexivity.
  - split; [ apply (Hfix _ ED25519 256) | ]; reflexivity.
  - split; [ apply (Hfix _ ED448 456) | ]; reflexivity.
  - intros algorithm H.
    pose proof (get_limits_unknown _ H) as Hnone.
    split; [ | split ].
    + unfold dnssec_algorithm_key_size_check. rewrite Hnone. reflexivity.
    + unfold dnssec_algorithm_key_size_default. rewrite Hnone. reflexivity.
    + intros min_ptr max_ptr Hptr. unfold dnssec_algorithm_key_size_range.
      rewrite Hnone.
      destruct min_ptr, max_ptr; try reflexivity.
      destruct Hptr as [Hp | Hp]; contradiction Hp; reflexivity.
Qed.

(** The policy at a 2048-bit request: accepted for RSA only, and an
    unassigned algorithm number (200) is refused on every query. *)
Lemma key_size_policy_witness :
  dnssec_algorithm_key_size_check DNSSEC_KEY_ALGORITHM_RSA_SHA256 2048 = true /\
  dnssec_algorithm_key_size_check DNSSEC_KEY_ALGORITHM_ED25519 2048 = false /\
  dnssec_algorithm_key_size_check 200 2048 = false /\
  dnssec_algorithm_key_size_default 200 = 0 /\
  dnssec_algorithm_key_size_range 200 (Some 0) None
  = (DNSSEC_INVALID_KEY_ALGORITHM, Some 0, None).
Proof.
  assert (Hunknown : ~ In 200 known_algorithms).
  { intros Hin. repeat (destruct Hin as [Hin | Hin]; [discriminate Hin | ]). exact Hin. }
  pose proof (key_size_policy 2048) as (Hrsa & _ & _ & Hed & _ & Hother).
  destruct (Hother 200 Hunknown) as (Hc & Hd & Hr).
  split; [ | split; [ | split; [ | split ] ] ].
  - apply Forall_inv_tail, Forall_inv_tail, Forall_inv in Hrsa.
    rewrite (proj1 Hrsa). reflexivity.
  - rewrite (proj1 Hed). reflexivity.
  - exact Hc.
  - exact Hd.
  - apply Hr. left. discriminate.
Defined.

(** *** More of the policy table: the backend mapping and consistency *)

(** [gnutls_pk_algorithm_t], as far as the mapping uses it. *)
Inductive gnutls_pk_algorithm_t : Type :=
  | GNUTLS_PK_UNKNOWN
  | GNUTLS_PK_RSA
  | GNUTLS_PK_ECDSA
  | GNUTLS_PK_EDDSA_ED25519
  | GNUTLS_PK_EDDSA_ED448.

(** [algorithm_to_gnutls]; [HAVE_ED448] tells whether the Ed448 case is
    compiled in. *)
Definition algorithm_to_gnutls (HAVE_ED448 : bool) (dnssec : dnssec_key_algorithm_t)
    : gnutls_pk_algorithm_t :=
  if (dnssec =? DNSSEC_KEY_ALGORITHM_RSA_SHA1)
     || (dnssec =? DNSSEC_KEY_ALGORITHM_RSA_SHA1_NSEC3)
     || (dnssec =? DNSSEC_KEY_ALGORITHM_RSA_SHA256)
     || (dnssec =? DNSSEC_KEY_ALGORITHM_RSA_SHA512) then GNUTLS_PK_RSA
  else if (dnssec =? DNSSEC_KEY_ALGORITHM_ECDSA_P256_SHA256)
          || (dnssec =? DNSSEC_KEY_ALGORITHM_ECDSA_P384_SHA384) then GNUTLS_PK_ECDSA
  else if dnssec =? DNSSEC_KEY_ALGORITHM_ED25519 then GNUTLS_PK_EDDSA_ED25519
  else if HAVE_ED448 && (dnssec =? DNSSEC_KEY_ALGORITHM_ED448) then GNUTLS_PK_EDDSA_ED448
  else GNUTLS_PK_UNKNOWN.

Lemma known_algorithms_cases (algorithm : dnssec_key_algorithm_t) :
  In algorithm known_algorithms \/ ~ In algorithm known_algorithms.
Proof.
  destruct (in_dec Z.eq_dec algorithm known_algorithms); [ left | right ]; assumption.
Qed.

Lemma get_limits_some_known (algorithm : dnssec_key_algorithm_t) (l : limits) :
  get_limits algorithm = Some l ->
  In algorithm known_algorithms /\ validate l = None /\ min l <= def l <= max l.
Proof.
  intros Hl. destruct (known_algorithms_cases algorithm) as [Hin | Hout].
  - split; [ exact Hin | ].
    simpl in Hin.
    repeat (destruct Hin as [Hin | Hin];
            [ subst algorithm; inversion Hl; subst l; simpl; split; [ reflexivity | lia ] | ]).
    contradiction.
  - rewrite (get_limits_unknown _ Hout) in Hl. discriminate Hl.
Qed.

(** X9: the default key size of an algorithm is itself an acceptable key
    size exactly for the algorithms the table knows; for any other value
    the default is 0 and is refused. *)
Theorem default_size_accepted (algorithm : dnssec_key_algorithm_t) :
  dnssec_algorithm_key_size_check algorithm (dnssec_algorithm_key_size_default algorithm)
  = true
  <-> In algorithm known_algorithms.
Proof.
  unfold dnssec_algorithm_key_size_default. split.
  - intros Hc. destruct (known_algorithms_cases algorithm) as [Hin | Hout]; [ exact Hin | ].
    unfold dnssec_algorithm_key_size_check in Hc.
    rewrite (get_limits_unknown _ Hout) in Hc. discriminate Hc.
  - intros Hin. destruct (get_limits algorithm) as [l | ] eqn:Hl.
    + destruct (get_limits_some_known algorithm l Hl) as (_ & Hv & Hmin & Hmax).
      rewrite (key_size_check_bounds algorithm l (def l) Hl Hv).
      apply andb_true_iff. split; apply Z.leb_le; assumption.
    + elim (get_limits_known algorithm Hin Hl).
Qed.

(** X10: the range query and the size check agree.  When the range query
    succeeds with bounds [lo] and [hi], a key size passes the check
    exactly when it lies between them; when it fails with the
    invalid-algorithm error, no key size passes the check. *)
Theorem range_agrees_with_check
    (algorithm : dnssec_key_algorithm_t) (min_ptr max_ptr : Z) :
  (forall lo hi : Z,
     dnssec_algorithm_key_size_range algorithm (Some min_ptr) (Some max_ptr)
     = (DNSSEC_EOK, Some lo, Some hi) ->
     forall bits : Z,
       dnssec_algorithm_key_size_check algorithm bits = true <-> lo <= bits <= hi) /\
  (fst (fst (dnssec_algorithm_key_size_range algorithm (Some min_ptr) (Some max_ptr)))
   = DNSSEC_INVALID_KEY_ALGORITHM ->
   forall bits : Z, dnssec_algorithm_key_size_check algorithm bits = false).
Proof.
  unfold dnssec_algorithm_key_size_range.
  destruct (get_limits algorithm) as [l | ] eqn:Hl; split.
  - intros lo hi Hr bits. inversion Hr; subst lo hi.
    destruct (get_limits_some_known algorithm l Hl) as (_ & Hv & _).
    rewrite (key_size_check_bounds algorithm l bits Hl Hv).
    rewrite andb_true_iff, !Z.leb_le. reflexivity.
  - simpl. discriminate.
  - intros lo hi Hr. discriminate Hr.
  - intros _ bits. unfold dnssec_algorithm_key_size_check. rewrite Hl. reflexivity.
Qed.

(** RSA/SHA-256: the bounds 1024 and 4096 come back and 3072 passes. *)
Lemma range_agrees_with_check_witness :
  dnssec_algorithm_key_size_check DNSSEC_KEY_ALGORITHM_RSA_SHA256 3072 = true.
Proof.
  apply (proj1 (range_agrees_with_check DNSSEC_KEY_ALGORITHM_RSA_SHA256 0 0)
           1024 4096 eq_refl 3072).
  lia.
Defined.

(** X11: every algorithm that is mapped to a GnuTLS public-key algorithm
    has key-size limits; when Ed448 is compiled in the converse holds as
    well, and when it is not, Ed448 is the one algorithm that has limits
    (456 bits pass the check) but no GnuTLS algorithm. *)
Theorem gnutls_mapping_has_limits (HAVE_ED448 : bool)
    (algorithm : dnssec_key_algorithm_t) :
  (algorithm_to_gnutls HAVE_ED448 algorithm <> GNUTLS_PK_UNKNOWN ->
     In algorithm known_algorithms) /\
  (In algorithm known_algorithms ->
     algorithm_to_gnutls true algorithm <> GNUTLS_PK_UNKNOWN) /\
  (In algorithm known_algorithms ->
     algorithm_to_gnutls false algorithm = GNUTLS_PK_UNKNOWN <->
     algorithm = DNSSEC_KEY_ALGORITHM_ED448).
Proof.
  split; [ | split ].
  - intros Hmap. destruct (known_algorithms_cases algorithm) as [Hin | Hout];
      [ exact Hin | ].
    exfalso. apply Hmap. unfold algorithm_to_gnutls.
    repeat match goal with
    | |- context [ ?a =? ?b ] =>
        destruct (Z.eqb_spec a b) as [E | _];
        [ exfalso; apply Hout; rewrite E; simpl; tauto | ]
    end.
    destruct HAVE_ED448; reflexivity.
  - simpl. intros Hin.
    repeat (destruct Hin as [Hin | Hin]; [ subst algorithm; discriminate | ]).
    contradiction.
  - simpl. intros Hin.
    repeat (destruct Hin as [Hin | Hin];
            [ subst algorithm; split; [ try discriminate; reflexivity
                                      | try reflexivity; discriminate ] | ]).
    contradiction.
Qed.

(** Without Ed448 support RSA/SHA-512 is still mapped, and mapped
    algorithms are known. *)
Lemma gnutls_mapping_has_limits_witness :
  In DNSSEC_KEY_ALGORITHM_RSA_SHA512 known_algorithms.
Proof.
  apply (proj1 (gnutls_mapping_has_limits false DNSSEC_KEY_ALGORITHM_RSA_SHA512)).
  discriminate.
Defined.

End Algorithm.

(** ** libknot data shared by the zone and DNSSEC code *)

(** One RDATA ([knot_rdata_t]): its [len] bytes; [len] is the list length. *)
Definition knot_rdata_t : Type := list byte.

(** [knot_rdataset_t]: the RDATA in storage order; [count] is the length. *)
Definition knot_rdataset_t : Type := list knot_rdata_t.

(** A domain name in wire format. *)
Definition knot_dname_t : Type := list byte.

(** RR type numbers used by the embedded sources (IANA values). *)
Definition KNOT_RRTYPE_RRSIG : Z := 46.
Definition KNOT_RRTYPE_DNSKEY : Z := 48.
Definition KNOT_RRTYPE_CDS : Z := 59.
Definition KNOT_RRTYPE_CDNSKEY : Z := 60.
Definition KNOT_CLASS_IN : Z := 1.

(** [knot_rrset_t]; a NULL owner is [None]. *)
Record knot_rrset_t : Type := {
  owner : option knot_dname_t;
  type : Z;
  rclass : Z;
  ttl : Z;
  rrs : knot_rdataset_t
}.

Definition set_ttl (rr : knot_rrset_t) (t : Z) : knot_rrset_t :=
  {| owner := owner rr; type := type rr; rclass := rclass rr; ttl := t; rrs := rrs rr |}.

Definition set_rrs (rr : knot_rrset_t) (rs : knot_rdataset_t) : knot_rrset_t :=
  {| owner := owner rr; type := type rr; rclass := rclass rr; ttl := ttl rr; rrs := rs |}.

(** [knot_rrset_init] and [knot_rrset_init_empty] *)
Definition knot_rrset_init (o : knot_dname_t) (ty cl t : Z) : knot_rrset_t :=
  {| owner := Some o; type := ty; rclass := cl; ttl := t; rrs := [] |}.

Definition knot_rrset_init_empty : knot_rrset_t :=
  {| owner := None; type := 0; rclass := KNOT_CLASS_IN; ttl := 0; rrs := [] |}.

(** Modelled from the spec: [knot_rrset_empty] (libknot/rrset.h) is not
    among the sources; a family is empty when it holds no RDATA. *)
Definition knot_rrset_empty (rr : knot_rrset_t) : bool :=
  match rrs rr with
  | [] => true
  | _ :: _ => false
  end.

(** ** knot/zone/measure.c *)

Module Measure.

Inductive measure_size_t : Type :=
  | MEASURE_SIZE_NONE
  | MEASURE_SIZE_WHOLE
  | MEASURE_SIZE_DIFF.

Inductive measure_ttl_t : Type :=
  | MEASURE_TTL_NONE
  | MEASURE_TTL_WHOLE
  | MEASURE_TTL_DIFF
  | MEASURE_TTL_LIMIT.

(** [measure_t].  [zone_size] is kept as a 64-bit pattern, so that both
    the additions and the subtractions of diff mode wrap as in C. *)
Record measure_t : Type := {
  how_size : measure_size_t;
  how_ttl : measure_ttl_t;
  zone_size : Z;
  max_ttl : Z;
  rem_max_ttl : Z;
  limit_max_ttl : Z
}.

Definition wrap64 (z : Z) : Z := z mod 2 ^ 64.

Definition set_zone_size (m : measure_t) (v : Z) : measure_t :=
  {| how_size := how_size m; how_ttl := how_ttl m; zone_size := v;
     max_ttl := max_ttl m; rem_max_ttl := rem_max_ttl m;
     limit_max_ttl := limit_max_ttl m |}.

Definition set_max_ttl (m : measure_t) (v : Z) : measure_t :=
  {| how_size := how_size m; how_ttl := how_ttl m; zone_size := zone_size m;
     max_ttl := v; rem_max_ttl := rem_max_ttl m;
     limit_max_ttl := limit_max_ttl m |}.

Definition set_rem_max_ttl (m : measure_t) (v : Z) : measure_t :=
  {| how_size := how_size m; how_ttl := how_ttl m; zone_size := zone_size m;
     max_ttl := max_ttl m; rem_max_ttl := v;
     limit_max_ttl := limit_max_ttl m |}.

Definition size_is_none (h : measure_size_t) : bool :=
  match h with MEASURE_SIZE_NONE => true | _ => false end.

Definition size_is_diff (h : measure_size_t) : bool :=
  match h with MEASURE_SIZE_DIFF => true | _ => false end.

Definition ttl_is_none (h : measure_ttl_t) : bool :=
  match h with MEASURE_TTL_NONE => true | _ => false end.

Definition ttl_is_diff (h : measure_ttl_t) : bool :=
  match h with MEASURE_TTL_DIFF => true | _ => false end.

Definition ttl_is_limit (h : measure_ttl_t) : bool :=
  match h with MEASURE_TTL_LIMIT => true | _ => false end.

(** [measure_t m = { 0 }] *)
Definition measure_zero : measure_t :=
  {| how_size := MEASURE_SIZE_NONE; how_ttl := MEASURE_TTL_NONE; zone_size := 0;
     max_ttl := 0; rem_max_ttl := 0; limit_max_ttl := 0 |}.

(** [knot_measure_init] (callers respect the assertion that not both flags
    are set). *)
Definition knot_measure_init (measure_whole measure_diff : bool) : measure_t :=
  let m := measure_zero in
  let m := if measure_whole
           then {| how_size := MEASURE_SIZE_WHOLE; how_ttl := MEASURE_TTL_WHOLE;
                   zone_size := zone_size m; max_ttl := max_ttl m;
                   rem_max_ttl := rem_max_ttl m; limit_max_ttl := limit_max_ttl m |}
           else m in
  if measure_diff
  then {| how_size := MEASURE_SIZE_DIFF; how_ttl := MEASURE_TTL_DIFF;
          zone_size := zone_size m; max_ttl := max_ttl m;
          rem_max_ttl := rem_max_ttl m; limit_max_ttl := limit_max_ttl m |}
  else m.

(** [struct rr_data]: one RRset slot of a node. *)
Record rr_data : Type := {
  rr_type : Z;
  rr_ttl : Z;
  rr_rrs : knot_rdataset_t
}.

Definition rr_data_zero : rr_data := {| rr_type := 0; rr_ttl := 0; rr_rrs := [] |}.

(** [zone_node_t], as far as measuring reads it; [rrset_count] is the
    length of the [rrs] array. *)
Record zone_node_t : Type := {
  node_owner : knot_dname_t;
  node_rrs : list rr_data
}.

Definition rrset_count (node : zone_node_t) : nat := length (node_rrs node).

(** [node->rrs[i]] *)
Definition node_rrs_at (node : zone_node_t) (i : nat) : rr_data :=
  nth i (node_rrs node) rr_data_zero.

(** [zone_contents_t]: the two trees in iteration order, the recorded size
    and the recorded maximal TTL. *)
Record zone_contents_t : Type := {
  nodes : list zone_node_t;
  nsec3_nodes : list zone_node_t;
  contents_size : Z;
  contents_max_ttl : Z
}.

Definition set_contents_size (c : zone_contents_t) (v : Z) : zone_contents_t :=
  {| nodes := nodes c; nsec3_nodes := nsec3_nodes c;
     contents_size := v; contents_max_ttl := contents_max_ttl c |}.

Definition set_contents_max_ttl (c : zone_contents_t) (v : Z) : zone_contents_t :=
  {| nodes := nodes c; nsec3_nodes := nsec3_nodes c;
     contents_size := contents_size c; contents_max_ttl := v |}.

(** [zone_update_t]: [zone_contents] stands for [update->zone->contents]. *)
Record zone_update_t : Type := {
  zone_contents : zone_contents_t;
  new_cont : zone_contents_t
}.

Definition set_new_cont (u : zone_update_t) (c : zone_contents_t) : zone_update_t :=
  {| zone_contents := zone_contents u; new_cont := c |}.

(** What a finishing step did besides writing the result: each call of
    [re_measure_max_ttl] (a walk over the whole zone) is recorded with its
    limit. *)
Inductive measure_event : Type :=
  | RE_MEASURE (limit : Z).

Section WithLibknot.

(** Collaborators that are declared outside the embedded sources. *)
Variable knot_rrsig_original_ttl : knot_rdata_t -> Z.
Variable node_rrset_at : zone_node_t -> nat -> knot_rrset_t.
Variable knot_rrset_size : knot_rrset_t -> Z.
Variable binode_counterpart : zone_node_t -> zone_node_t.
Variable zone_tree_it_double_begin :
  list zone_node_t -> list zone_node_t -> knot_error * list zone_node_t.

(** [rrset_max_ttl] *)
Definition rrset_max_ttl (r : rr_data) : Z :=
  if negb (rr_type r =? KNOT_RRTYPE_RRSIG) then rr_ttl r
  else fold_left (fun res rd => Z.max res (knot_rrsig_original_ttl rd)) (rr_rrs r) 0.

(** The first loop of [knot_measure_node]. *)
Definition measure_added (node : zone_node_t) (m : measure_t) : measure_t :=
  fold_left
    (fun m i =>
       let m :=
         if negb (size_is_none (how_size m))
         then set_zone_size m (wrap64 (zone_size m + knot_rrset_size (node_rrset_at node i)))
         else m in
       if negb (ttl_is_none (how_ttl m))
       then set_max_ttl m (Z.max (max_ttl m) (rrset_max_ttl (node_rrs_at node i)))
       else m)
    (seq 0 (rrset_count node)) m.

(** The second loop, over the counterpart node. *)
Definition measure_removed (node : zone_node_t) (m : measure_t) : measure_t :=
  fold_left
    (fun m i =>
       let m :=
         if size_is_diff (how_size m)
         then set_zone_size m (wrap64 (zone_size m - knot_rrset_size (node_rrset_at node i)))
         else m in
       if ttl_is_diff (how_ttl m)
       then set_rem_max_ttl m (Z.max (rem_max_ttl m) (rrset_max_ttl (node_rrs_at node i)))
       else m)
    (seq 0 (rrset_count node)) m.

(** [knot_measure_node]: the returned flag and the accumulator after the
    call. *)
Definition knot_measure_node (node : zone_node_t) (m : measure_t) : bool * measure_t :=
  if size_is_none (how_size m)
     && (ttl_is_none (how_ttl m)
         || (ttl_is_limit (how_ttl m) && (max_ttl m >=? limit_max_ttl m)))
  then (false, m)
  else
    let m := measure_added node m in
    if negb (size_is_diff (how_size m)) && negb (ttl_is_diff (how_ttl m))
    then (true, m)
    else (true, measure_removed (binode_counterpart node) m).

(** The while loop of [re_measure_max_ttl] over the remaining nodes of the
    iterator. *)
Fixpoint measure_while (it : list zone_node_t) (m : measure_t) : measure_t :=
  match it with
  | [] => m
  | node :: it' =>
    let '(go, m') := knot_measure_node node m in
    if go then measure_while it' m' else m'
  end.

(** [re_measure_max_ttl] *)
Definition re_measure_max_ttl (zone : zone_contents_t) (limit : Z) : Z :=
  let m := {| how_size := MEASURE_SIZE_NONE; how_ttl := MEASURE_TTL_LIMIT;
              zone_size := 0; max_ttl := 0; rem_max_ttl := 0;
              limit_max_ttl := limit |} in
  match zone_tree_it_double_begin (nodes zone) (nsec3_nodes zone) with
  | (KNOT_EOK, it) => max_ttl (measure_while it m)
  | (_, _) => limit
  end.

(** [knot_measure_finish_zone] *)
Definition knot_measure_finish_zone (m : measure_t) (zone : zone_contents_t)
    : zone_contents_t :=
  let zone := match how_size m with
              | MEASURE_SIZE_WHOLE => set_contents_size zone (zone_size m)
              | _ => zone
              end in
  match how_ttl m with
  | MEASURE_TTL_WHOLE => set_contents_max_ttl zone (max_ttl m)
  | _ => zone
  end.

(** [knot_measure_finish_update]: the update after the call and the zone
    walks it started. *)
Definition knot_measure_finish_update (m : measure_t) (update : zone_update_t)
    : zone_update_t * list measure_event :=
  let update :=
    match how_size m with
    | MEASURE_SIZE_NONE => update
    | MEASURE_SIZE_WHOLE =>
        set_new_cont update (set_contents_size (new_cont update) (zone_size m))
    | MEASURE_SIZE_DIFF =>
        set_new_cont update
          (set_contents_size (new_cont update)
             (wrap64 (contents_size (zone_contents update) + zone_size m)))
    end in
  match how_ttl m with
  | MEASURE_TTL_NONE => (update, [])
  | MEASURE_TTL_WHOLE
  | MEASURE_TTL_LIMIT =>
      (set_new_cont update (set_contents_max_ttl (new_cont update) (max_ttl m)), [])
  | MEASURE_TTL_DIFF =>
      if max_ttl m >=? contents_max_ttl (zone_contents update) then
        (set_new_cont update (set_contents_max_ttl (new_cont update) (max_ttl m)), [])
      else if contents_max_ttl (zone_contents update) >? rem_max_ttl m then
        (set_new_cont update
           (set_contents_max_ttl (new_cont update)
              (contents_max_ttl (zone_contents update))), [])
      else
        (set_new_cont update
           (set_contents_max_ttl (new_cont update)
              (re_measure_max_ttl (new_cont update)
                 (contents_max_ttl (zone_contents update)))),
         [RE_MEASURE (contents_max_ttl (zone_contents update))])
  end.

(** *** Properties of the measurement accumulator *)

(** The guard at the head of [knot_measure_node], as a proposition. *)
Lemma measure_node_guard (m : measure_t) :
  size_is_none (how_size m)
  && (ttl_is_none (how_ttl m)
      || (ttl_is_limit (how_ttl m) && (max_ttl m >=? limit_max_ttl m))) = true
  <->
  how_size m = MEASURE_SIZE_NONE /\
  (how_ttl m = MEASURE_TTL_NONE \/
   (how_ttl m = MEASURE_TTL_LIMIT /\ limit_max_ttl m <= max_ttl m)).
Proof.
  rewrite andb_true_iff, orb_true_iff, andb_true_iff, Z.geb_le.
  destruct (how_size m), (how_ttl m); simpl; intuition congruence.
Qed.

Lemma measure_node_flag (node : zone_node_t) (m : measure_t) :
  fst (knot_measure_node node m)
  = negb (size_is_none (how_size m)
          && (ttl_is_none (how_ttl m)
              || (ttl_is_limit (how_ttl m) && (max_ttl m >=? limit_max_ttl m)))).
Proof.
  unfold knot_measure_node.
  destruct (size_is_none (how_size m) && _); simpl; [reflexivity|].
  destruct (negb _ && negb _); reflexivity.
Qed.

Lemma measure_node_false_frame (node : zone_node_t) (m : measure_t) :
  fst (knot_measure_node node m) = false -> snd (knot_measure_node node m) = m.
Proof.
  unfold knot_measure_node.
  destruct (size_is_none (how_size m) && _); simpl; [reflexivity|].
  destruct (negb _ && negb _); simpl; discriminate.
Qed.

(** C9: [knot_measure_node] returns false exactly when size measuring is
    off and TTL measuring is off or in limit mode with the accumulated
    maximum at or above the limit; when it returns false the accumulator is
    unchanged, and so it stays over any further nodes a caller might still
    visit. *)
Theorem measure_node_stop (node : zone_node_t) (m : measure_t) :
  (fst (knot_measure_node node m) = false <->
     how_size m = MEASURE_SIZE_NONE /\
     (how_ttl m = MEASURE_TTL_NONE \/
      (how_ttl m = MEASURE_TTL_LIMIT /\ limit_max_ttl m <= max_ttl m))) /\
  (fst (knot_measure_node node m) = false ->
     snd (knot_measure_node node m) = m /\
     forall rest : list zone_node_t,
       fold_left (fun acc n => snd (knot_measure_node n acc)) rest m = m).
Proof.
  split.
  - rewrite measure_node_flag, negb_false_iff. apply measure_node_guard.
  - intros Hstop. split; [ apply measure_node_false_frame, Hstop | ].
    rewrite measure_node_flag in Hstop.
    induction rest as [ | n rest IH ]; simpl; [ reflexivity | ].
    rewrite (measure_node_false_frame n m); [ exact IH | ].
    rewrite measure_node_flag. exact Hstop.
Qed.

(** The zone walk of [re_measure_max_ttl] reads the two trees only. *)
Lemma re_measure_max_ttl_size (c : zone_contents_t) (v limit : Z) :
  re_measure_max_ttl (set_contents_size c v) limit = re_measure_max_ttl c limit.
Proof. reflexivity. Qed.

(** C6: in TTL-diff mode the whole-zone walk is started exactly when the
    maximum over the added records is strictly below the old zone maximum
    and the maximum over the removed records is at least the old zone
    maximum; it is then started once, with the old maximum as its limit,
    and its result is recorded.  In every other case no walk is started
    and the recorded maximum is the larger of the accumulated maximum and
    the old zone maximum. *)
Theorem finish_update_ttl_diff (m : measure_t) (update : zone_update_t) :
  how_ttl m = MEASURE_TTL_DIFF ->
  let old := contents_max_ttl (zone_contents update) in
  let res := knot_measure_finish_update m update in
  (snd res <> [] <-> max_ttl m < old /\ old <= rem_max_ttl m) /\
  (snd res = [] ->
     contents_max_ttl (new_cont (fst res)) = Z.max (max_ttl m) old) /\
  (snd res <> [] ->
     snd res = [RE_MEASURE old] /\
     contents_max_ttl (new_cont (fst res))
     = re_measure_max_ttl (new_cont update) old).
Proof.
  intros Hdiff old res. subst old res.
  unfold knot_measure_finish_update. rewrite Hdiff.
  set (old := contents_max_ttl (zone_contents update)).
  assert (Hold : forall u, zone_contents u = zone_contents update ->
                   contents_max_ttl (zone_contents u) = old) by (intros u ->; reflexivity).
  destruct (how_size m); simpl zone_contents; fold old;
    destruct (Z.geb_spec (max_ttl m) old) as [Hge | Hlt];
    try destruct (Z.gtb_spec old (rem_max_ttl m)) as [Hgt | Hle];
    simpl; (split; [ split; [ intros; try congruence; lia | intros; try congruence; lia ] | ]);
    (split; [ intros; try congruence; lia | intros; try congruence; split; reflexivity ]).
Qed.

(** *** What the accumulator holds after measuring *)

(** The sizes and the maximal TTLs of the RRsets of a node, in index
    order. *)
Definition node_sizes (node : zone_node_t) : list Z :=
  map (fun i => knot_rrset_size (node_rrset_at node i)) (seq 0 (rrset_count node)).

Definition node_ttls (node : zone_node_t) : list Z :=
  map (fun i => rrset_max_ttl (node_rrs_at node i)) (seq 0 (rrset_count node)).

Definition sum_list (l : list Z) : Z := fold_right Z.add 0 l.

Definition max_list (l : list Z) : Z := fold_right Z.max 0 l.

Lemma sum_list_app (l1 l2 : list Z) : sum_list (l1 ++ l2) = sum_list l1 + sum_list l2.
Proof. induction l1 as [ | a l1 IH ]; simpl; [ reflexivity | rewrite IH; lia ]. Qed.

Lemma max_list_app (l1 l2 : list Z) :
  max_list (l1 ++ l2) = Z.max (max_list l1) (max_list l2).
Proof.
  induction l1 as [ | a l1 IH ]; simpl.
  - assert (H : 0 <= max_list l2) by (induction l2; simpl; lia). lia.
  - rewrite IH. lia.
Qed.

Lemma max_list_nonneg (l : list Z) : 0 <= max_list l.
Proof. induction l; simpl; lia. Qed.

Lemma wrap64_add_l (a b : Z) : wrap64 (wrap64 a + b) = wrap64 (a + b).
Proof. unfold wrap64. apply Zplus_mod_idemp_l. Qed.

Lemma wrap64_sub_l (a b : Z) : wrap64 (wrap64 a - b) = wrap64 (a - b).
Proof. unfold wrap64. apply Zminus_mod_idemp_l. Qed.

Lemma wrap64_small (a : Z) : 0 <= a < 2 ^ 64 -> wrap64 a = a.
Proof. intros H. unfold wrap64. apply Z.mod_small, H. Qed.

(** The accumulator after the first loop, from the sizes and TTLs it
    met. *)
Definition added_result (m : measure_t) (sizes ttls : list Z) : measure_t :=
  {| how_size := how_size m; how_ttl := how_ttl m;
     zone_size := if size_is_none (how_size m) then zone_size m
                  else fold_left (fun z s => wrap64 (z + s)) sizes (zone_size m);
     max_ttl := if ttl_is_none (how_ttl m) then max_ttl m
                else fold_left Z.max ttls (max_ttl m);
     rem_max_ttl := rem_max_ttl m; limit_max_ttl := limit_max_ttl m |}.

(** The accumulator after the second loop. *)
Definition removed_result (m : measure_t) (sizes ttls : list Z) : measure_t :=
  {| how_size := how_size m; how_ttl := how_ttl m;
     zone_size := if size_is_diff (how_size m)
                  then fold_left (fun z s => wrap64 (z - s)) sizes (zone_size m)
                  else zone_size m;
     max_ttl := max_ttl m;
     rem_max_ttl := if ttl_is_diff (how_ttl m)
                    then fold_left Z.max ttls (rem_max_ttl m)
                    else rem_max_ttl m;
     limit_max_ttl := limit_max_ttl m |}.

Lemma measure_added_result (node : zone_node_t) (m : measure_t) :
  measure_added node m = added_result m (node_sizes node) (node_ttls node).
Proof.
  unfold measure_added, node_sizes, node_ttls.
  generalize (seq 0 (rrset_count node)) as l. intros l. revert m.
  induction l as [ | i l IH ]; intros m.
  - destruct m as [hs ht zs mt rt lt]. destruct hs, ht; reflexivity.
  - cbn [fold_left map]. rewrite IH.
    destruct m as [hs ht zs mt rt lt]. destruct hs, ht; reflexivity.
Qed.

Lemma measure_removed_result (node : zone_node_t) (m : measure_t) :
  measure_removed node m = removed_result m (node_sizes node) (node_ttls node).
Proof.
  unfold measure_removed, node_sizes, node_ttls.
  generalize (seq 0 (rrset_count node)) as l. intros l. revert m.
  induction l as [ | i l IH ]; intros m.
  - destruct m as [hs ht zs mt rt lt]. destruct hs, ht; reflexivity.
  - cbn [fold_left map]. rewrite IH.
    destruct m as [hs ht zs mt rt lt]. destruct hs, ht; reflexivity.
Qed.

Lemma fold_wrap_add (sizes : list Z) (z : Z) :
  wrap64 (fold_left (fun z s => wrap64 (z + s)) sizes z) = wrap64 (z + sum_list sizes).
Proof.
  revert z. induction sizes as [ | s sizes IH ]; intros z; cbn [fold_left sum_list fold_right].
  - rewrite Z.add_0_r. reflexivity.
  - rewrite IH, wrap64_add_l. f_equal. unfold sum_list. lia.
Qed.

Lemma fold_wrap_sub (sizes : list Z) (z : Z) :
  wrap64 (fold_left (fun z s => wrap64 (z - s)) sizes z) = wrap64 (z - sum_list sizes).
Proof.
  revert z. induction sizes as [ | s sizes IH ]; intros z; cbn [fold_left sum_list fold_right].
  - rewrite Z.sub_0_r. reflexivity.
  - rewrite IH, wrap64_sub_l. f_equal. unfold sum_list. lia.
Qed.

Lemma wrap64_range (z : Z) : 0 <= wrap64 z < 2 ^ 64.
Proof. unfold wrap64. apply Z.mod_pos_bound. lia. Qed.

Lemma fold_wrap_add_range (sizes : list Z) (z : Z) :
  0 <= z < 2 ^ 64 ->
  0 <= fold_left (fun z s => wrap64 (z + s)) sizes z < 2 ^ 64.
Proof.
  revert z. induction sizes as [ | s sizes IH ]; intros z Hz; cbn [fold_left].
  - exact Hz.
  - apply IH, wrap64_range.
Qed.

Lemma fold_wrap_sub_range (sizes : list Z) (z : Z) :
  0 <= z < 2 ^ 64 ->
  0 <= fold_left (fun z s => wrap64 (z - s)) sizes z < 2 ^ 64.
Proof.
  revert z. induction sizes as [ | s sizes IH ]; intros z Hz; cbn [fold_left].
  - exact Hz.
  - apply IH, wrap64_range.
Qed.

Lemma fold_max_ge (ttls : list Z) (t : Z) : t <= fold_left Z.max ttls t.
Proof.
  revert t. induction ttls as [ | a ttls IH ]; intros t; cbn [fold_left]; [ lia | ].
  specialize (IH (Z.max t a)). lia.
Qed.

Lemma fold_max_list (ttls : list Z) (t : Z) :
  0 <= t -> fold_left Z.max ttls t = Z.max t (max_list ttls).
Proof.
  revert t. induction ttls as [ | a ttls IH ]; intros t Ht; cbn [fold_left max_list fold_right].
  - lia.
  - rewrite IH by lia. pose proof (max_list_nonneg ttls). unfold max_list in *. lia.
Qed.

(** [knot_measure_node] by cases on the modes. *)
Lemma measure_node_result (node : zone_node_t) (m : measure_t) :
  fst (knot_measure_node node m) = true ->
  snd (knot_measure_node node m)
  = if negb (size_is_diff (how_size m)) && negb (ttl_is_diff (how_ttl m))
    then added_result m (node_sizes node) (node_ttls node)
    else removed_result (added_result m (node_sizes node) (node_ttls node))
           (node_sizes (binode_counterpart node)) (node_ttls (binode_counterpart node)).
Proof.
  unfold knot_measure_node.
  destruct (size_is_none (how_size m) && _); simpl; [ discriminate | ].
  intros _. rewrite measure_added_result. cbn [how_size how_ttl added_result].
  destruct (negb (size_is_diff (how_size m)) && negb (ttl_is_diff (how_ttl m)));
    simpl; [ reflexivity | ].
  rewrite measure_removed_result. reflexivity.
Qed.

(** X12: measuring a node never switches modes, never touches the limit
    and never lowers a maximum: the size and TTL modes and
    [limit_max_ttl] are the same after the call, and [max_ttl] and
    [rem_max_ttl] are at least what they were. *)
Theorem measure_node_monotone (node : zone_node_t) (m : measure_t) :
  let m' := snd (knot_measure_node node m) in
  how_size m' = how_size m /\ how_ttl m' = how_ttl m /\
  limit_max_ttl m' = limit_max_ttl m /\
  max_ttl m <= max_ttl m' /\ rem_max_ttl m <= rem_max_ttl m'.
Proof.
  cbv zeta. destruct (fst (knot_measure_node node m)) eqn:Hgo.
  - rewrite (measure_node_result node m Hgo).
    destruct (negb (size_is_diff (how_size m)) && negb (ttl_is_diff (how_ttl m)));
      cbn [how_size how_ttl limit_max_ttl max_ttl rem_max_ttl added_result removed_result];
      repeat split; try lia;
      repeat match goal with
      | |- context [ if ?c then _ else _ ] => destruct c
      end; try lia; apply fold_max_ge.
  - rewrite (measure_node_false_frame node m Hgo). repeat split; lia.
Qed.

(** X13: in diff mode a node contributes its net change.  With size and
    TTL both measured as a diff and [zone_size] a 64-bit value, after
    [knot_measure_node] the size is the old one plus the sizes of the
    node's RRsets minus the sizes of the counterpart's RRsets, modulo
    2^64; [max_ttl] has taken in the node's TTLs and [rem_max_ttl] the
    counterpart's.  In particular a node whose counterpart has the same
    RRset sizes leaves the size as it was. *)
Theorem measure_node_diff (node : zone_node_t) (m : measure_t) :
  how_size m = MEASURE_SIZE_DIFF -> how_ttl m = MEASURE_TTL_DIFF ->
  0 <= zone_size m < 2 ^ 64 ->
  let m' := snd (knot_measure_node node m) in
  fst (knot_measure_node node m) = true /\
  zone_size m'
  = (zone_size m + sum_list (node_sizes node)
     - sum_list (node_sizes (binode_counterpart node))) mod 2 ^ 64 /\
  max_ttl m' = fold_left Z.max (node_ttls node) (max_ttl m) /\
  rem_max_ttl m' = fold_left Z.max (node_ttls (binode_counterpart node)) (rem_max_ttl m) /\
  (node_sizes (binode_counterpart node) = node_sizes node -> zone_size m' = zone_size m).
Proof.
  intros Hs Ht Hz. cbv zeta.
  assert (Hgo : fst (knot_measure_node node m) = true).
  { rewrite measure_node_flag, Hs. reflexivity. }
  rewrite (measure_node_result node m Hgo), Hs, Ht.
  cbn [size_is_diff ttl_is_diff negb andb how_size how_ttl zone_size max_ttl rem_max_ttl
       added_result removed_result size_is_none ttl_is_none].
  rewrite !Hs, !Ht. cbn [size_is_diff ttl_is_diff size_is_none ttl_is_none].
  assert (Hsize :
    fold_left (fun z s => wrap64 (z - s)) (node_sizes (binode_counterpart node))
      (fold_left (fun z s => wrap64 (z + s)) (node_sizes node) (zone_size m))
    = (zone_size m + sum_list (node_sizes node)
       - sum_list (node_sizes (binode_counterpart node))) mod 2 ^ 64).
  { rewrite <- (wrap64_small (fold_left (fun z s => wrap64 (z - s)) _ _))
      by (apply fold_wrap_sub_range, fold_wrap_add_range, Hz).
    rewrite fold_wrap_sub, <- wrap64_sub_l, fold_wrap_add, wrap64_sub_l.
    reflexivity. }
  split; [ exact Hgo | ]. split; [ exact Hsize | ].
  split; [ reflexivity | ]. split; [ reflexivity | ].
  intros Hsame. rewrite Hsize, Hsame.
  replace (zone_size m + sum_list (node_sizes node) - sum_list (node_sizes node))
    with (zone_size m) by lia.
  apply Z.mod_small, Hz.
Qed.

(** The iterated nodes' TTLs, and the zone walk in limit mode. *)
Definition nodes_ttls (it : list zone_node_t) : list Z := flat_map node_ttls it.

Lemma measure_while_limit (it : list zone_node_t) :
  forall m : measure_t,
    how_size m = MEASURE_SIZE_NONE -> how_ttl m = MEASURE_TTL_LIMIT ->
    0 <= max_ttl m ->
    let r := max_ttl (measure_while it m) in
    let top := Z.max (max_ttl m) (max_list (nodes_ttls it)) in
    max_ttl m <= r <= top /\
    (top < limit_max_ttl m -> r = top) /\
    (limit_max_ttl m <= top -> limit_max_ttl m <= r).
Proof.
  induction it as [ | node it IH ]; intros m Hs Ht Hm; cbv zeta.
  - cbn [measure_while nodes_ttls flat_map max_list fold_right]. lia.
  - cbn [measure_while nodes_ttls flat_map]. rewrite max_list_app.
    fold (nodes_ttls it).
    pose proof (max_list_nonneg (node_ttls node)) as Hn.
    pose proof (max_list_nonneg (nodes_ttls it)) as Hr.
    rewrite (surjective_pairing (knot_measure_node node m)).
    destruct (fst (knot_measure_node node m)) eqn:Hgo.
    + rewrite (measure_node_result node m Hgo), Hs, Ht.
      cbn [size_is_diff ttl_is_diff negb andb].
      set (m1 := added_result m (node_sizes node) (node_ttls node)).
      assert (Hm1 : max_ttl m1 = Z.max (max_ttl m) (max_list (node_ttls node))).
      { unfold m1. cbn [max_ttl added_result]. rewrite Ht. cbn [ttl_is_none].
        apply fold_max_list, Hm. }
      assert (Hl1 : limit_max_ttl m1 = limit_max_ttl m) by reflexivity.
      specialize (IH m1 Hs Ht ltac:(lia)). cbv zeta in IH.
      rewrite Hm1, Hl1 in IH. lia.
    + pose proof (measure_node_false_frame node m Hgo) as Hsame. rewrite Hsame.
      rewrite measure_node_flag, negb_false_iff in Hgo.
      apply measure_node_guard in Hgo.
      destruct Hgo as [_ [Hnone | [_ Hlim]]]; [ congruence | ]. lia.
Qed.

(** X14: the fallback walk never over-reports and is exact below the
    limit.  When the iterator starts, [re_measure_max_ttl] returns a value
    that is at most the largest TTL among the iterated nodes; it is
    exactly that largest TTL when it is below the limit, and at least the
    limit otherwise (the walk stops at the first node that reaches the
    limit).  When the iterator cannot be started the limit itself is
    returned. *)
Theorem re_measure_bounds (zone : zone_contents_t) (limit : Z) :
  (forall it : list zone_node_t,
     zone_tree_it_double_begin (nodes zone) (nsec3_nodes zone) = (KNOT_EOK, it) ->
     let top := max_list (nodes_ttls it) in
     re_measure_max_ttl zone limit <= top /\
     (top < limit -> re_measure_max_ttl zone limit = top) /\
     (limit <= top -> limit <= re_measure_max_ttl zone limit)) /\
  (fst (zone_tree_it_double_begin (nodes zone) (nsec3_nodes zone)) <> KNOT_EOK ->
   re_measure_max_ttl zone limit = limit).
Proof.
  unfold re_measure_max_ttl. split.
  - intros it Hit. rewrite Hit. cbv zeta.
    pose proof (measure_while_limit it
                  {| how_size := MEASURE_SIZE_NONE; how_ttl := MEASURE_TTL_LIMIT;
                     zone_size := 0; max_ttl := 0; rem_max_ttl := 0;
                     limit_max_ttl := limit |} eq_refl eq_refl (Z.le_refl 0)) as H.
    cbv zeta in H. cbn [max_ttl limit_max_ttl] in H.
    pose proof (max_list_nonneg (nodes_ttls it)). lia.
  - destruct (zone_tree_it_double_begin (nodes zone) (nsec3_nodes zone)) as [ret it].
    simpl. intros Hret. destruct ret; try reflexivity. contradiction Hret; reflexivity.
Qed.

(** Measuring every node of a list, as the callers that walk the zone do. *)
Definition measure_nodes (l : list zone_node_t) (m : measure_t) : measure_t :=
  fold_left (fun acc n => snd (knot_measure_node n acc)) l m.

Lemma measure_nodes_whole (l : list zone_node_t) :
  forall m : measure_t,
    how_size m = MEASURE_SIZE_WHOLE -> how_ttl m = MEASURE_TTL_WHOLE ->
    0 <= zone_size m < 2 ^ 64 -> 0 <= max_ttl m ->
    let m' := measure_nodes l m in
    how_size m' = MEASURE_SIZE_WHOLE /\ how_ttl m' = MEASURE_TTL_WHOLE /\
    zone_size m' = (zone_size m + sum_list (flat_map node_sizes l)) mod 2 ^ 64 /\
    max_ttl m' = Z.max (max_ttl m) (max_list (flat_map node_ttls l)) /\
    rem_max_ttl m' = rem_max_ttl m /\
    measure_while l m = m'.
Proof.
  induction l as [ | node l IH ]; intros m Hs Ht Hz Hm; cbv zeta.
  - cbn [measure_nodes fold_left flat_map sum_list max_list fold_right measure_while].
    rewrite Z.add_0_r, Z.mod_small by exact Hz.
    repeat split; try assumption. lia.
  - assert (Hgo : fst (knot_measure_node node m) = true).
    { rewrite measure_node_flag, Hs. reflexivity. }
    pose proof (measure_node_result node m Hgo) as Hres.
    rewrite Hs, Ht in Hres. cbn [size_is_diff ttl_is_diff negb andb] in Hres.
    set (m1 := added_result m (node_sizes node) (node_ttls node)) in *.
    assert (Hs1 : how_size m1 = MEASURE_SIZE_WHOLE) by exact Hs.
    assert (Ht1 : how_ttl m1 = MEASURE_TTL_WHOLE) by exact Ht.
    assert (Hz1 : zone_size m1 = (zone_size m + sum_list (node_sizes node)) mod 2 ^ 64).
    { unfold m1. cbn [zone_size added_result]. rewrite Hs. cbn [size_is_none].
      rewrite <- (wrap64_small (fold_left _ _ _)) by (apply fold_wrap_add_range, Hz).
      apply fold_wrap_add. }
    assert (Hm1 : max_ttl m1 = Z.max (max_ttl m) (max_list (node_ttls node))).
    { unfold m1. cbn [max_ttl added_result]. rewrite Ht. cbn [ttl_is_none].
      apply fold_max_list, Hm. }
    assert (Hr1 : rem_max_ttl m1 = rem_max_ttl m) by reflexivity.
    pose proof (max_list_nonneg (node_ttls node)) as Hn.
    specialize (IH m1 Hs1 Ht1).
    rewrite Hz1, Hm1, Hr1 in IH.
    specialize (IH (wrap64_range _) ltac:(lia)). cbv zeta in IH.
    destruct IH as (Is & It & Iz & Im & Ir & Iw).
    destruct (knot_measure_node node m) as [go mm] eqn:E.
    cbn [fst snd] in Hgo, Hres. subst go mm.
    cbn [measure_nodes fold_left flat_map measure_while]. rewrite E. cbn [snd].
    fold (measure_nodes l m1).
    rewrite sum_list_app, max_list_app, Is, It, Iz, Im, Ir, Iw.
    repeat split.
    + rewrite Zplus_mod_idemp_l. f_equal. lia.
    + lia.
Qed.

(** X15: a whole-zone measurement yields the zone's size and largest TTL.
    Starting from [knot_measure_init true false], measuring every node of
    a list (no call asks the walk to stop) and finishing with
    [knot_measure_finish_zone] records as the zone's size the sum of the
    sizes of all RRsets, modulo 2^64, and as its maximal TTL the largest
    of their TTLs. *)
Theorem measure_whole_zone (l : list zone_node_t) (zone : zone_contents_t) :
  let m := measure_nodes l (knot_measure_init true false) in
  measure_while l (knot_measure_init true false) = m /\
  contents_size (knot_measure_finish_zone m zone)
  = sum_list (flat_map node_sizes l) mod 2 ^ 64 /\
  contents_max_ttl (knot_measure_finish_zone m zone)
  = max_list (flat_map node_ttls l).
Proof.
  cbv zeta.
  pose proof (measure_nodes_whole l (knot_measure_init true false) eq_refl eq_refl
                ltac:(simpl; lia) (Z.le_refl 0)) as H.
  cbv zeta in H. destruct H as (Hs & Ht & Hz & Hm & _ & Hw).
  split; [ exact Hw | ].
  unfold knot_measure_finish_zone. rewrite Hs, Ht. cbn [contents_size contents_max_ttl
    set_contents_size set_contents_max_ttl].
  rewrite Hz, Hm. cbn [knot_measure_init measure_zero zone_size max_ttl].
  pose proof (max_list_nonneg (flat_map node_ttls l)).
  split; [ reflexivity | lia ].
Qed.

Lemma measure_nodes_diff_size (l : list zone_node_t) :
  forall m : measure_t,
    how_size m = MEASURE_SIZE_DIFF ->
    0 <= zone_size m < 2 ^ 64 ->
    let m' := measure_nodes l m in
    how_size m' = MEASURE_SIZE_DIFF /\ how_ttl m' = how_ttl m /\
    zone_size m'
    = (zone_size m + sum_list (flat_map node_sizes l)
       - sum_list (flat_map node_sizes (map binode_counterpart l))) mod 2 ^ 64.
Proof.
  induction l as [ | node l IH ]; intros m Hs Hz; cbv zeta.
  - cbn [measure_nodes fold_left flat_map map sum_list fold_right].
    rewrite Z.add_0_r, Z.sub_0_r, Z.mod_small by exact Hz.
    repeat split; assumption.
  - assert (Hgo : fst (knot_measure_node node m) = true).
    { rewrite measure_node_flag, Hs. reflexivity. }
    pose proof (measure_node_result node m Hgo) as Hres.
    rewrite Hs in Hres. cbn [size_is_diff negb andb] in Hres.
    set (m1 := removed_result (added_result m (node_sizes node) (node_ttls node))
                 (node_sizes (binode_counterpart node))
                 (node_ttls (binode_counterpart node))) in *.
    assert (Hs1 : how_size m1 = MEASURE_SIZE_DIFF) by exact Hs.
    assert (Ht1 : how_ttl m1 = how_ttl m) by reflexivity.
    assert (Hz1 : zone_size m1
                  = (zone_size m + sum_list (node_sizes node)
                     - sum_list (node_sizes (binode_counterpart node))) mod 2 ^ 64).
    { unfold m1. cbn [zone_size how_size added_result removed_result].
      rewrite Hs. cbn [size_is_diff size_is_none].
      rewrite <- (wrap64_small (fold_left (fun z s => wrap64 (z - s)) _ _))
        by (apply fold_wrap_sub_range, fold_wrap_add_range, Hz).
      rewrite fold_wrap_sub, <- wrap64_sub_l, fold_wrap_add, wrap64_sub_l.
      reflexivity. }
    specialize (IH m1 Hs1). rewrite Hz1, Ht1 in IH.
    specialize (IH (wrap64_range _)). cbv zeta in IH.
    destruct IH as (Is & It & Iz).
    cbn [measure_nodes fold_left flat_map map]. rewrite Hres.
    fold (measure_nodes l m1).
    rewrite !sum_list_app, Is, It, Iz.
    repeat split.
    match goal with
    | |- (?a mod ?n + ?b - ?c) mod ?n = _ =>
        replace (a mod n + b - c) with (a mod n + (b - c)) by lia
    end.
    rewrite Zplus_mod_idemp_l. f_equal. lia.
Qed.

(** X16: an incremental measurement yields the new zone size.  Starting
    from [knot_measure_init false true], measuring the changed nodes and
    finishing with [knot_measure_finish_update] records as the size of
    the new contents the size of the old contents plus the sizes of the
    RRsets of the measured nodes minus the sizes of the RRsets of their
    counterparts, modulo 2^64. *)
Theorem measure_diff_update (l : list zone_node_t) (update : zone_update_t) :
  let m := measure_nodes l (knot_measure_init false true) in
  contents_size (new_cont (fst (knot_measure_finish_update m update)))
  = (contents_size (zone_contents update)
     + sum_list (flat_map node_sizes l)
     - sum_list (flat_map node_sizes (map binode_counterpart l))) mod 2 ^ 64.
Proof.
  cbv zeta.
  pose proof (measure_nodes_diff_size l (knot_measure_init false true) eq_refl
                ltac:(simpl; lia)) as H.
  cbv zeta in H. destruct H as (Hs & Ht & Hz).
  change (how_ttl (knot_measure_init false true)) with MEASURE_TTL_DIFF in Ht.
  change (zone_size (knot_measure_init false true)) with 0 in Hz.
  set (m := measure_nodes l (knot_measure_init false true)) in *.
  assert (Hgoal : wrap64 (contents_size (zone_contents update) + zone_size m)
                  = (contents_size (zone_contents update)
                     + sum_list (flat_map node_sizes l)
                     - sum_list (flat_map node_sizes (map binode_counterpart l)))
                    mod 2 ^ 64).
  { rewrite Hz. unfold wrap64. rewrite Zplus_mod_idemp_r. f_equal. lia. }
  unfold knot_measure_finish_update. rewrite Hs, Ht.
  cbn [zone_contents set_new_cont].
  repeat match goal with
  | |- context [ if ?c then _ else _ ] => destruct c
  end; cbn [fst new_cont set_new_cont contents_size set_contents_max_ttl set_contents_size];
    exact Hgoal.
Qed.

End WithLibknot.

(** *** A concrete zone for the statements above *)

(** Plain collaborators: the original TTL of an RRSIG is read as 0, every
    RRset weighs its RDATA count, a node is its own counterpart, and the
    iterator always starts. *)
Definition plain_original_ttl (rd : knot_rdata_t) : Z := 0.

Definition plain_rrset_at (node : zone_node_t) (i : nat) : knot_rrset_t :=
  {| owner := Some (node_owner node); type := rr_type (node_rrs_at node i);
     rclass := KNOT_CLASS_IN; ttl := rr_ttl (node_rrs_at node i);
     rrs := rr_rrs (node_rrs_at node i) |}.

Definition plain_rrset_size (rr : knot_rrset_t) : Z := Z.of_nat (length (rrs rr)).

Definition plain_counterpart (node : zone_node_t) : zone_node_t := node.

Definition plain_it_begin (t1 t2 : list zone_node_t) : knot_error * list zone_node_t :=
  (KNOT_EOK, t1 ++ t2).

Definition example_node (t : Z) : zone_node_t :=
  {| node_owner := []; node_rrs := [ {| rr_type := 1; rr_ttl := t; rr_rrs := [[]] |} ] |}.

Definition example_update : zone_update_t :=
  {| zone_contents := {| nodes := [example_node 3600]; nsec3_nodes := [];
                         contents_size := 1; contents_max_ttl := 3600 |};
     new_cont := {| nodes := [example_node 300]; nsec3_nodes := [];
                    contents_size := 0; contents_max_ttl := 0 |} |}.

(** The accumulator after a diff run that replaced the only record (TTL
    3600) with one of TTL 300. *)
Definition example_diff : measure_t :=
  {| how_size := MEASURE_SIZE_DIFF; how_ttl := MEASURE_TTL_DIFF; zone_size := 0;
     max_ttl := 300; rem_max_ttl := 3600; limit_max_ttl := 0 |}.

(** Replacing the record that carried the old maximum starts the walk,
    which finds the new maximum 300. *)
Lemma finish_update_ttl_diff_witness :
  snd (knot_measure_finish_update plain_original_ttl plain_rrset_at plain_rrset_size
         plain_counterpart plain_it_begin example_diff example_update)
  = [RE_MEASURE 3600] /\
  contents_max_ttl
    (new_cont (fst (knot_measure_finish_update plain_original_ttl plain_rrset_at
                      plain_rrset_size plain_counterpart plain_it_begin
                      example_diff example_update)))
  = 300.
Proof.
  pose proof (finish_update_ttl_diff plain_original_ttl plain_rrset_at plain_rrset_size
                plain_counterpart plain_it_begin example_diff example_update eq_refl)
    as (_ & _ & Hwalk).
  destruct Hwalk as [Htrace Hmax]; [ discriminate | ].
  split; [ exact Htrace | rewrite Hmax; reflexivity ].
Defined.

(** With measuring switched off, a node is refused and nothing changes. *)
Lemma measure_node_stop_witness :
  knot_measure_node plain_original_ttl plain_rrset_at plain_rrset_size
    plain_counterpart (example_node 300) measure_zero
  = (false, measure_zero).
Proof.
  pose proof (measure_node_stop plain_original_ttl plain_rrset_at plain_rrset_size
                plain_counterpart (example_node 300) measure_zero) as [Hiff Hframe].
  assert (Hfalse : fst (knot_measure_node plain_original_ttl plain_rrset_at
                          plain_rrset_size plain_counterpart (example_node 300)
                          measure_zero) = false).
  { apply Hiff. split; [ reflexivity | left; reflexivity ]. }
  destruct (Hframe Hfalse) as [Hsame _].
  rewrite (surjective_pairing (knot_measure_node _ _ _ _ _ _)), Hfalse, Hsame.
  reflexivity.
Defined.

(** In diff mode a node that is its own counterpart adds nothing to the
    size. *)
Lemma measure_node_diff_witness :
  zone_size (snd (knot_measure_node plain_original_ttl plain_rrset_at plain_rrset_size
                    plain_counterpart (example_node 300) example_diff))
  = zone_size example_diff.
Proof.
  apply (proj2 (proj2 (proj2 (proj2
           (measure_node_diff plain_original_ttl plain_rrset_at plain_rrset_size
              plain_counterpart (example_node 300) example_diff eq_refl eq_refl
              (conj (Z.le_refl 0) eq_refl)))))).
  reflexivity.
Defined.

(** The walk over the new contents of the example finds 300, below the
    limit 3600. *)
Lemma re_measure_bounds_witness :
  re_measure_max_ttl plain_original_ttl plain_rrset_at plain_rrset_size
    plain_counterpart plain_it_begin (new_cont example_update) 3600
  = 300.
Proof.
  apply (proj1 (proj2 (proj1 (re_measure_bounds plain_original_ttl plain_rrset_at
                                plain_rrset_size plain_counterpart plain_it_begin
                                (new_cont example_update) 3600)
                         [example_node 300] eq_refl))).
  reflexivity.
Defined.

End Measure.

(** ** contrib/wire_ctx.h *)

Module Wire.

(** A byte as a number and back ([uint8_t] casts). *)
Definition Z_of_byte (b : byte) : Z := Z.of_N (Byte.to_N b).

Definition byte_of_Z (z : Z) : byte :=
  match Byte.of_N (Z.to_N (z mod 256)) with
  | Some b => b
  | None => "000"%byte
  end.

(** The [n] low-order bytes of [v], most significant first: what
    [htobe16], [htobe32] and [htobe64] leave in memory. *)
Fixpoint be_bytes (n : nat) (v : Z) : list byte :=
  match n with
  | O => []
  | S n' => be_bytes n' (v / 256) ++ [byte_of_Z v]
  end.

(** The number big-endian bytes stand for ([be16toh] and the like). *)
Definition be_value (l : list byte) : Z :=
  fold_left (fun acc b => acc * 256 + Z_of_byte b) l 0.

(** [wire_ctx_t].  The buffer [wire] has [size] bytes; [position] is kept
    as the offset [position - wire]. *)
Record wire_ctx_t : Type := {
  size : nat;
  wire : list byte;
  position : nat;
  error : knot_error;
  readonly : bool
}.

Definition set_error (ctx : wire_ctx_t) (e : knot_error) : wire_ctx_t :=
  {| size := size ctx; wire := wire ctx; position := position ctx;
     error := e; readonly := readonly ctx |}.

Definition set_position (ctx : wire_ctx_t) (p : nat) : wire_ctx_t :=
  {| size := size ctx; wire := wire ctx; position := p;
     error := error ctx; readonly := readonly ctx |}.

(** [memcpy(ctx->position, data, size); ctx->position += size] *)
Definition put (ctx : wire_ctx_t) (data : list byte) : wire_ctx_t :=
  {| size := size ctx;
     wire := firstn (position ctx) (wire ctx) ++ data
             ++ skipn (position ctx + length data) (wire ctx);
     position := position ctx + length data;
     error := error ctx; readonly := readonly ctx |}.

(** [wire_ctx_init] and [wire_ctx_init_const] *)
Definition wire_ctx_init (data : list byte) (sz : nat) : wire_ctx_t :=
  {| size := sz; wire := data; position := 0; error := KNOT_EOK; readonly := false |}.

Definition wire_ctx_init_const (data : list byte) (sz : nat) : wire_ctx_t :=
  let result := wire_ctx_init data sz in
  {| size := size result; wire := wire result; position := position result;
     error := error result; readonly := true |}.

(** [wire_ctx_offset] *)
Definition wire_ctx_offset (ctx : wire_ctx_t) : nat := position ctx.

(** [wire_ctx_set_offset] *)
Definition wire_ctx_set_offset (ctx : wire_ctx_t) (offset : nat) : wire_ctx_t :=
  if negb (knot_is_eok (error ctx)) then ctx
  else if (size ctx <? offset)%nat then set_error ctx KNOT_ERANGE
  else set_position ctx offset.

(** [wire_ctx_available]; the position never passes the end of the
    buffer, so the subtraction does not wrap. *)
Definition wire_ctx_available (ctx : wire_ctx_t) : nat :=
  (size ctx - wire_ctx_offset ctx)%nat.

(** [wire_ctx_skip], with the signed offset as an integer. *)
Definition wire_ctx_skip (ctx : wire_ctx_t) (offset : Z) : wire_ctx_t :=
  if negb (knot_is_eok (error ctx)) then ctx
  else if 0 <=? offset then
    if Z.of_nat (wire_ctx_available ctx) <? offset then set_error ctx KNOT_ERANGE
    else set_position ctx (Z.to_nat (Z.of_nat (position ctx) + offset))
  else
    if Z.of_nat (wire_ctx_offset ctx) <? - offset then set_error ctx KNOT_ERANGE
    else set_position ctx (Z.to_nat (Z.of_nat (position ctx) + offset)).

(** [wire_ctx_can_read] *)
Definition wire_ctx_can_read (ctx : wire_ctx_t) (sz : nat) : knot_error :=
  if negb (knot_is_eok (error ctx)) then error ctx
  else if (wire_ctx_available ctx <? sz)%nat then KNOT_EFEWDATA
  else KNOT_EOK.

(** [wire_ctx_can_write] *)
Definition wire_ctx_can_write (ctx : wire_ctx_t) (sz : nat) : knot_error :=
  if negb (knot_is_eok (error ctx)) then error ctx
  else if readonly ctx then KNOT_EACCES
  else if (wire_ctx_available ctx <? sz)%nat then KNOT_ESPACE
  else KNOT_EOK.

(** [wire_ctx_read]: the [sz] bytes stored into [data] and the context
    after the call. *)
Definition wire_ctx_read (ctx : wire_ctx_t) (sz : nat) : list byte * wire_ctx_t :=
  if negb (knot_is_eok (error ctx)) then (repeat "000"%byte sz, ctx)
  else
    let ret := wire_ctx_can_read ctx sz in
    if negb (knot_is_eok ret) then (repeat "000"%byte sz, set_error ctx ret)
    else (firstn sz (skipn (position ctx) (wire ctx)),
          set_position ctx (position ctx + sz)).

Definition wire_ctx_read_u8 (ctx : wire_ctx_t) : Z * wire_ctx_t :=
  let '(result, ctx) := wire_ctx_read ctx 1 in (be_value result, ctx).

Definition wire_ctx_read_u16 (ctx : wire_ctx_t) : Z * wire_ctx_t :=
  let '(result, ctx) := wire_ctx_read ctx 2 in (be_value result, ctx).

Definition wire_ctx_read_u32 (ctx : wire_ctx_t) : Z * wire_ctx_t :=
  let '(result, ctx) := wire_ctx_read ctx 4 in (be_value result, ctx).

Definition wire_ctx_read_u48 (ctx : wire_ctx_t) : Z * wire_ctx_t :=
  let '(result, ctx) := wire_ctx_read ctx 6 in (be_value result, ctx).

Definition wire_ctx_read_u64 (ctx : wire_ctx_t) : Z * wire_ctx_t :=
  let '(result, ctx) := wire_ctx_read ctx 8 in (be_value result, ctx).

(** [wire_ctx_write]; [data] carries its [size]. *)
Definition wire_ctx_write (ctx : wire_ctx_t) (data : list byte) : wire_ctx_t :=
  if negb (knot_is_eok (error ctx)) then ctx
  else if (length data =? 0)%nat then ctx
  else
    let ret := wire_ctx_can_write ctx (length data) in
    if negb (knot_is_eok ret) then set_error ctx ret
    else put ctx data.

Definition wire_ctx_write_u8 (ctx : wire_ctx_t) (value : Z) : wire_ctx_t :=
  wire_ctx_write ctx (be_bytes 1 value).

Definition wire_ctx_write_u16 (ctx : wire_ctx_t) (value : Z) : wire_ctx_t :=
  wire_ctx_write ctx (be_bytes 2 value).

Definition wire_ctx_write_u32 (ctx : wire_ctx_t) (value : Z) : wire_ctx_t :=
  wire_ctx_write ctx (be_bytes 4 value).

Definition wire_ctx_write_u48 (ctx : wire_ctx_t) (value : Z) : wire_ctx_t :=
  wire_ctx_write ctx (be_bytes 6 value).

Definition wire_ctx_write_u64 (ctx : wire_ctx_t) (value : Z) : wire_ctx_t :=
  wire_ctx_write ctx (be_bytes 8 value).

(** [wire_ctx_clear] *)
Definition wire_ctx_clear (ctx : wire_ctx_t) (sz : nat) : wire_ctx_t :=
  if negb (knot_is_eok (error ctx)) then ctx
  else if (sz =? 0)%nat then ctx
  else
    let ret := wire_ctx_can_write ctx sz in
    if negb (knot_is_eok ret) then set_error ctx ret
    else put ctx (repeat "000"%byte sz).

(** *** Bytes and numbers *)

Lemma Z_of_byte_range (b : byte) : 0 <= Z_of_byte b < 256.
Proof.
  unfold Z_of_byte. pose proof (Byte.to_N_bounded b). lia.
Qed.

Lemma Z_of_byte_of_Z (z : Z) : Z_of_byte (byte_of_Z z) = z mod 256.
Proof.
  unfold Z_of_byte, byte_of_Z.
  pose proof (Z.mod_pos_bound z 256 ltac:(lia)) as Hr.
  destruct (Byte.of_N (Z.to_N (z mod 256))) as [b | ] eqn:E.
  - apply Byte.to_of_N in E. rewrite E. lia.
  - apply Byte.of_N_None_iff in E. lia.
Qed.

Lemma be_value_app (l : list byte) (b : byte) :
  be_value (l ++ [b]) = be_value l * 256 + Z_of_byte b.
Proof. unfold be_value. rewrite fold_left_app. reflexivity. Qed.

Lemma length_be_bytes (n : nat) (v : Z) : length (be_bytes n v) = n.
Proof.
  revert v. induction n as [ | n IH ]; intros v; simpl; [ reflexivity | ].
  rewrite length_app, IH. simpl. lia.
Qed.

(** Big-endian bytes read back as the number they were made from. *)
Lemma be_value_bytes (n : nat) (v : Z) :
  0 <= v < 256 ^ Z.of_nat n -> be_value (be_bytes n v) = v.
Proof.
  revert v. induction n as [ | n IH ]; intros v Hv.
  - simpl in *. unfold be_value. simpl. lia.
  - simpl be_bytes. rewrite be_value_app, Z_of_byte_of_Z.
    rewrite IH.
    + pose proof (Z.div_mod v 256 ltac:(lia)). lia.
    + rewrite Nat2Z.inj_succ, Z.pow_succ_r in Hv by lia.
      split; [ apply Z.div_pos; lia | apply Z.div_lt_upper_bound; lia ].
Qed.

(** *** Writing and reading at a position *)

(** A healthy context whose buffer is [done ++ rest], positioned after
    [done]. *)
Definition at_pos (sz : nat) (ro : bool) (done rest : list byte) : wire_ctx_t :=
  {| size := sz; wire := done ++ rest; position := length done;
     error := KNOT_EOK; readonly := ro |}.

Lemma wire_ctx_init_at_pos (buf : list byte) :
  wire_ctx_init buf (length buf) = at_pos (length buf) false [] buf.
Proof. reflexivity. Qed.

Lemma wire_ctx_init_const_at_pos (buf : list byte) (sz : nat) :
  wire_ctx_init_const buf sz = at_pos sz true [] buf.
Proof. reflexivity. Qed.

Lemma at_pos_available (sz : nat) (ro : bool) (done rest : list byte) :
  sz = (length done + length rest)%nat ->
  wire_ctx_available (at_pos sz ro done rest) = length rest.
Proof. intros ->. unfold wire_ctx_available, wire_ctx_offset. simpl. lia. Qed.

(** Writing [d] where there is room for it replaces the next bytes. *)
Lemma wire_ctx_write_at (sz : nat) (done rest d : list byte) :
  sz = (length done + length rest)%nat ->
  (length d <= length rest)%nat ->
  wire_ctx_write (at_pos sz false done rest) d
  = at_pos sz false (done ++ d) (skipn (length d) rest).
Proof.
  intros Hsz Hroom. unfold wire_ctx_write. simpl error. simpl negb. cbv iota.
  destruct (Nat.eqb_spec (length d) 0) as [Hz | Hnz].
  - apply length_zero_iff_nil in Hz. subst d. simpl.
    unfold at_pos. rewrite app_nil_r. reflexivity.
  - unfold wire_ctx_can_write. simpl error. simpl readonly. simpl negb. cbv iota.
    rewrite (at_pos_available sz false done rest Hsz).
    destruct (Nat.ltb_spec (length rest) (length d)) as [Hlt | _]; [ lia | ].
    simpl negb. cbv iota. unfold put, at_pos. simpl.
    rewrite firstn_app, firstn_all, Nat.sub_diag, firstn_O, app_nil_r.
    rewrite skipn_app, skipn_all2 by lia.
    replace (length done + length d - length done)%nat with (length d) by lia.
    rewrite length_app, <- app_assoc. reflexivity.
Qed.

(** Reading as many bytes as [d] has, where [d] is stored, yields [d]. *)
Lemma wire_ctx_read_at (sz : nat) (ro : bool) (done d rest : list byte) :
  sz = (length done + length (d ++ rest))%nat ->
  wire_ctx_read (at_pos sz ro done (d ++ rest)) (length d)
  = (d, at_pos sz ro (done ++ d) rest).
Proof.
  intros Hsz. unfold wire_ctx_read. simpl error. simpl negb. cbv iota.
  unfold wire_ctx_can_read. simpl error. simpl negb. cbv iota.
  rewrite (at_pos_available sz ro done (d ++ rest) Hsz), length_app.
  destruct (Nat.ltb_spec (length d + length rest) (length d)) as [Hlt | _]; [ lia | ].
  simpl negb. cbv iota. unfold at_pos, set_position. simpl.
  rewrite skipn_app, skipn_all, Nat.sub_diag. simpl.
  rewrite firstn_app, firstn_all, Nat.sub_diag, firstn_O, app_nil_r.
  rewrite length_app, <- app_assoc. reflexivity.
Qed.

Lemma wire_ctx_write_u16_at (sz : nat) (done rest : list byte) (v : Z) :
  sz = (length done + length rest)%nat ->
  (2 <= length rest)%nat ->
  wire_ctx_write_u16 (at_pos sz false done rest) v
  = at_pos sz false (done ++ be_bytes 2 v) (skipn 2 rest).
Proof.
  intros Hsz Hroom. unfold wire_ctx_write_u16.
  rewrite wire_ctx_write_at; rewrite ?length_be_bytes; auto.
Qed.

Lemma wire_ctx_read_u16_at (sz : nat) (ro : bool) (done rest : list byte) (v : Z) :
  sz = (length done + length (be_bytes 2 v ++ rest))%nat ->
  0 <= v < 65536 ->
  wire_ctx_read_u16 (at_pos sz ro done (be_bytes 2 v ++ rest))
  = (v, at_pos sz ro (done ++ be_bytes 2 v) rest).
Proof.
  intros Hsz Hv. unfold wire_ctx_read_u16.
  pose proof (wire_ctx_read_at sz ro done (be_bytes 2 v) rest Hsz) as Hread.
  rewrite length_be_bytes in Hread. rewrite Hread.
  rewrite (be_value_bytes 2 v) by (simpl; lia). reflexivity.
Qed.

(** *** More of wire_ctx.h: copying, invariants, failures *)

(** [wire_ctx_copy]: both contexts after the call. *)
Definition wire_ctx_copy (dst src : wire_ctx_t) (sz : nat) : wire_ctx_t * wire_ctx_t :=
  if (sz =? 0)%nat || negb (knot_is_eok (error dst)) then (dst, src)
  else if negb (knot_is_eok (wire_ctx_can_read src sz))
  then (set_error dst KNOT_EFEWDATA, src)
  else
    let ret := wire_ctx_can_write dst sz in
    if negb (knot_is_eok ret) then (set_error dst ret, src)
    else
      ({| size := size dst;
          wire := firstn (position dst) (wire dst)
                  ++ firstn sz (skipn (position src) (wire src))
                  ++ skipn (position dst + sz) (wire dst);
          position := position dst + sz;
          error := error dst; readonly := readonly dst |},
       set_position src (position src + sz)).

(** The buffer has [size] bytes and the position is inside it or at its
    end. *)
Definition wire_wf (ctx : wire_ctx_t) : Prop :=
  length (wire ctx) = size ctx /\ (position ctx <= size ctx)%nat.

Lemma wire_wf_at_pos (ctx : wire_ctx_t) :
  error ctx = KNOT_EOK -> wire_wf ctx ->
  ctx = at_pos (size ctx) (readonly ctx)
          (firstn (position ctx) (wire ctx)) (skipn (position ctx) (wire ctx))
  /\ size ctx = (length (firstn (position ctx) (wire ctx))
                 + length (skipn (position ctx) (wire ctx)))%nat.
Proof.
  intros He [Hlen Hpos]. destruct ctx as [sz w p e ro]. simpl in *. subst e.
  unfold at_pos. rewrite firstn_skipn, length_firstn, length_skipn.
  rewrite Nat.min_l by lia. split; [ reflexivity | lia ].
Qed.

Lemma can_write_ok (ctx : wire_ctx_t) (n : nat) :
  error ctx = KNOT_EOK -> readonly ctx = false ->
  (n <= wire_ctx_available ctx)%nat ->
  wire_ctx_can_write ctx n = KNOT_EOK.
Proof.
  intros He Hro Hn. unfold wire_ctx_can_write. rewrite He, Hro. simpl.
  destruct (Nat.ltb_spec (wire_ctx_available ctx) n); [ lia | reflexivity ].
Qed.

Lemma can_read_ok (ctx : wire_ctx_t) (n : nat) :
  error ctx = KNOT_EOK -> (n <= wire_ctx_available ctx)%nat ->
  wire_ctx_can_read ctx n = KNOT_EOK.
Proof.
  intros He Hn. unfold wire_ctx_can_read. rewrite He. simpl.
  destruct (Nat.ltb_spec (wire_ctx_available ctx) n); [ lia | reflexivity ].
Qed.

Lemma can_write_wf (ctx : wire_ctx_t) (n : nat) :
  wire_ctx_can_write ctx n = KNOT_EOK -> (n <= wire_ctx_available ctx)%nat.
Proof.
  unfold wire_ctx_can_write.
  destruct (negb (knot_is_eok (error ctx))) eqn:E.
  - intros H. rewrite H in E. discriminate E.
  - destruct (readonly ctx); [ discriminate | ].
    destruct (Nat.ltb_spec (wire_ctx_available ctx) n); [ discriminate | intros _; lia ].
Qed.

Lemma put_wf (ctx : wire_ctx_t) (d : list byte) :
  wire_wf ctx -> (length d <= wire_ctx_available ctx)%nat -> wire_wf (put ctx d).
Proof.
  intros [Hlen Hpos] Hn. unfold wire_ctx_available, wire_ctx_offset in Hn.
  unfold wire_wf, put. simpl.
  rewrite !length_app, length_firstn, length_skipn. lia.
Qed.

(** X1: every operation of the wire context keeps the buffer at its
    [size] bytes and the position within the buffer, whatever the
    arguments are: no call can move the position past the end. *)
Theorem wire_wf_preserved (ctx : wire_ctx_t) (d : list byte) (n offset : nat) (k : Z) :
  wire_wf ctx ->
  wire_wf (wire_ctx_write ctx d) /\
  wire_wf (snd (wire_ctx_read ctx n)) /\
  wire_wf (wire_ctx_clear ctx n) /\
  wire_wf (wire_ctx_skip ctx k) /\
  wire_wf (wire_ctx_set_offset ctx offset).
Proof.
  intros Hwf. pose proof Hwf as [Hlen Hpos].
  split; [ | split; [ | split; [ | split ] ] ].
  - unfold wire_ctx_write.
    destruct (negb (knot_is_eok (error ctx))); [ exact Hwf | ].
    destruct (length d =? 0)%nat; [ exact Hwf | ].
    destruct (wire_ctx_can_write ctx (length d)) eqn:E; simpl; try exact Hwf.
    apply put_wf; [ exact Hwf | apply can_write_wf, E ].
  - unfold wire_ctx_read.
    destruct (negb (knot_is_eok (error ctx))) eqn:Ee; [ exact Hwf | ].
    unfold wire_ctx_can_read, wire_ctx_available, wire_ctx_offset. rewrite Ee.
    destruct (Nat.ltb_spec (size ctx - position ctx) n); simpl; [ exact Hwf | ].
    split; simpl; [ exact Hlen | lia ].
  - unfold wire_ctx_clear.
    destruct (negb (knot_is_eok (error ctx))); [ exact Hwf | ].
    destruct (n =? 0)%nat; [ exact Hwf | ].
    destruct (wire_ctx_can_write ctx n) eqn:E; simpl; try exact Hwf.
    apply put_wf; [ exact Hwf | rewrite repeat_length; apply can_write_wf, E ].
  - unfold wire_ctx_skip, wire_ctx_available, wire_ctx_offset.
    destruct (negb (knot_is_eok (error ctx))); [ exact Hwf | ].
    destruct (Z.leb_spec 0 k).
    + destruct (Z.ltb_spec (Z.of_nat (size ctx - position ctx)) k); [ exact Hwf | ].
      split; simpl; [ exact Hlen | lia ].
    + destruct (Z.ltb_spec (Z.of_nat (position ctx)) (- k)); [ exact Hwf | ].
      split; simpl; [ exact Hlen | lia ].
  - unfold wire_ctx_set_offset.
    destruct (negb (knot_is_eok (error ctx))); [ exact Hwf | ].
    destruct (Nat.ltb_spec (size ctx) offset); [ exact Hwf | ].
    split; simpl; [ exact Hlen | lia ].
Qed.

(** A 16-byte writable buffer stays well formed under a write. *)
Lemma wire_wf_preserved_witness :
  wire_wf (wire_ctx_write (wire_ctx_init (repeat "000"%byte 16) 16) ["001"; "002"]%byte).
Proof.
  apply (wire_wf_preserved (wire_ctx_init (repeat "000"%byte 16) 16)
           ["001"; "002"]%byte 0 0 0).
  split; simpl; lia.
Defined.

(** X2: an error is sticky.  Once the context carries an error, writing,
    clearing, skipping and repositioning leave it exactly as it is, the
    two checks report that error, and a read delivers zero bytes only. *)
Theorem wire_error_sticky (ctx : wire_ctx_t) (d : list byte) (n offset : nat) (k : Z) :
  error ctx <> KNOT_EOK ->
  wire_ctx_write ctx d = ctx /\
  wire_ctx_clear ctx n = ctx /\
  wire_ctx_skip ctx k = ctx /\
  wire_ctx_set_offset ctx offset = ctx /\
  wire_ctx_read ctx n = (repeat "000"%byte n, ctx) /\
  wire_ctx_can_read ctx n = error ctx /\
  wire_ctx_can_write ctx n = error ctx.
Proof.
  intros He. apply knot_is_eok_false in He.
  unfold wire_ctx_write, wire_ctx_clear, wire_ctx_skip, wire_ctx_set_offset,
    wire_ctx_read, wire_ctx_can_read, wire_ctx_can_write.
  rewrite He. simpl. repeat split.
Qed.

(** A context that ran out of space ignores a later write. *)
Lemma wire_error_sticky_witness :
  wire_ctx_write (set_error (wire_ctx_init (repeat "000"%byte 4) 4) KNOT_ESPACE)
    ["001"%byte]
  = set_error (wire_ctx_init (repeat "000"%byte 4) 4) KNOT_ESPACE.
Proof.
  apply (wire_error_sticky (set_error (wire_ctx_init (repeat "000"%byte 4) 4) KNOT_ESPACE)
           ["001"%byte] 0 0 0).
  discriminate.
Defined.

(** X3: a failing transfer is all or nothing.  A non-empty write to a
    healthy context that is read-only fails with KNOT_EACCES, and one that
    does not fit fails with KNOT_ESPACE (read-only is checked first); a
    read of more bytes than are left fails with KNOT_EFEWDATA and delivers
    zeros.  In each case only the error field changes: no byte is
    written and the position does not move. *)
Theorem wire_transfer_fails (ctx : wire_ctx_t) (d : list byte) (n : nat) :
  error ctx = KNOT_EOK ->
  (d <> [] -> readonly ctx = true ->
     wire_ctx_write ctx d = set_error ctx KNOT_EACCES) /\
  (readonly ctx = false -> (wire_ctx_available ctx < length d)%nat ->
     wire_ctx_write ctx d = set_error ctx KNOT_ESPACE) /\
  ((wire_ctx_available ctx < n)%nat ->
     wire_ctx_read ctx n = (repeat "000"%byte n, set_error ctx KNOT_EFEWDATA)).
Proof.
  intros He. split; [ | split ].
  - intros Hd Hro. unfold wire_ctx_write, wire_ctx_can_write. rewrite He, Hro. simpl.
    destruct d as [ | b d ]; [ contradiction Hd; reflexivity | reflexivity ].
  - intros Hro Hlt. unfold wire_ctx_write, wire_ctx_can_write. rewrite He, Hro. simpl.
    destruct (Nat.eqb_spec (length d) 0); [ lia | ].
    destruct (Nat.ltb_spec (wire_ctx_available ctx) (length d)); [ reflexivity | lia ].
  - intros Hlt. unfold wire_ctx_read, wire_ctx_can_read. rewrite He. simpl.
    destruct (Nat.ltb_spec (wire_ctx_available ctx) n); [ reflexivity | lia ].
Qed.

(** Three bytes do not fit a two-byte buffer. *)
Lemma wire_transfer_fails_witness :
  wire_ctx_write (wire_ctx_init ["007"; "007"]%byte 2) ["001"; "002"; "003"]%byte
  = set_error (wire_ctx_init ["007"; "007"]%byte 2) KNOT_ESPACE.
Proof.
  apply (proj1 (proj2 (wire_transfer_fails (wire_ctx_init ["007"; "007"]%byte 2)
                         ["001"; "002"; "003"]%byte 0 eq_refl)));
    [ reflexivity | unfold wire_ctx_available, wire_ctx_offset; simpl; lia ].
Defined.

(** Reading back, from where it was written, what [wire_ctx_write] has
    just stored. *)
Lemma write_then_read_at (sz : nat) (done rest d : list byte) :
  sz = (length done + length rest)%nat ->
  (length d <= length rest)%nat ->
  wire_ctx_read
    (wire_ctx_set_offset (wire_ctx_write (at_pos sz false done rest) d) (length done))
    (length d)
  = (d, wire_ctx_write (at_pos sz false done rest) d).
Proof.
  intros Hsz Hroom. rewrite (wire_ctx_write_at sz done rest d Hsz Hroom).
  unfold wire_ctx_set_offset. simpl error. simpl negb. cbv iota.
  simpl size. destruct (Nat.ltb_spec sz (length done)) as [Hlt | _]; [ lia | ].
  assert (Hback : set_position (at_pos sz false (done ++ d) (skipn (length d) rest))
                    (length done)
                  = at_pos sz false done (d ++ skipn (length d) rest)).
  { unfold set_position, at_pos. simpl. rewrite <- app_assoc. reflexivity. }
  rewrite Hback. apply wire_ctx_read_at.
  rewrite length_app, length_skipn. lia.
Qed.

(** The same for any healthy writable context, with the bytes around the
    written window. *)
Lemma write_then_read (ctx : wire_ctx_t) (d : list byte) :
  error ctx = KNOT_EOK -> readonly ctx = false -> wire_wf ctx ->
  (length d <= wire_ctx_available ctx)%nat ->
  wire_ctx_read (wire_ctx_set_offset (wire_ctx_write ctx d) (position ctx)) (length d)
  = (d, wire_ctx_write ctx d) /\
  firstn (position ctx) (wire (wire_ctx_write ctx d)) = firstn (position ctx) (wire ctx) /\
  skipn (position ctx + length d) (wire (wire_ctx_write ctx d))
  = skipn (position ctx + length d) (wire ctx).
Proof.
  intros He Hro Hwf Hroom.
  destruct (wire_wf_at_pos ctx He Hwf) as [Hctx Hsz].
  destruct Hwf as [Hlen Hpos].
  unfold wire_ctx_available, wire_ctx_offset in Hroom.
  set (done := firstn (position ctx) (wire ctx)) in *.
  set (rest := skipn (position ctx) (wire ctx)) in *.
  assert (Hdone : length done = position ctx).
  { unfold done. rewrite length_firstn. lia. }
  assert (Hrest : (length d <= length rest)%nat).
  { unfold rest. rewrite length_skipn. lia. }
  rewrite Hro in Hctx.
  assert (Hw : wire_ctx_write ctx d
               = at_pos (size ctx) false (done ++ d) (skipn (length d) rest)).
  { rewrite Hctx at 1. apply wire_ctx_write_at; assumption. }
  split; [ | split ].
  - rewrite <- Hdone.
    replace (wire_ctx_write ctx d)
      with (wire_ctx_write (at_pos (size ctx) false done rest) d)
      by (rewrite <- Hctx; reflexivity).
    apply write_then_read_at; assumption.
  - rewrite Hw. unfold at_pos. simpl wire. rewrite <- Hdone, <- app_assoc.
    rewrite firstn_app, firstn_all, Nat.sub_diag, firstn_O, app_nil_r.
    reflexivity.
  - rewrite Hw. unfold at_pos. simpl wire. rewrite <- Hdone, <- app_assoc.
    rewrite skipn_app, skipn_all2 by lia.
    replace (length done + length d - length done)%nat with (length d) by lia.
    rewrite skipn_app, skipn_all, Nat.sub_diag. simpl.
    unfold rest. rewrite skipn_skipn. f_equal. lia.
Qed.

(** X4: what is written can be read back.  After a write that fits, to a
    healthy writable context, moving back to the old position and reading
    as many bytes returns exactly the written bytes and leaves the context
    as the write left it; the bytes before and after the written window
    are the old ones. *)
Theorem wire_write_read (ctx : wire_ctx_t) (d : list byte) :
  error ctx = KNOT_EOK -> readonly ctx = false -> wire_wf ctx ->
  (length d <= wire_ctx_available ctx)%nat ->
  wire_ctx_read (wire_ctx_set_offset (wire_ctx_write ctx d) (position ctx)) (length d)
  = (d, wire_ctx_write ctx d) /\
  firstn (position ctx) (wire (wire_ctx_write ctx d)) = firstn (position ctx) (wire ctx) /\
  skipn (position ctx + length d) (wire (wire_ctx_write ctx d))
  = skipn (position ctx + length d) (wire ctx).
Proof. exact (write_then_read ctx d). Qed.

(** Two bytes written at offset 0 of a four-byte buffer are read back. *)
Lemma wire_write_read_witness :
  wire_ctx_read
    (wire_ctx_set_offset
       (wire_ctx_write (wire_ctx_init (repeat "000"%byte 4) 4) ["010"; "020"]%byte) 0) 2
  = (["010"; "020"]%byte,
     wire_ctx_write (wire_ctx_init (repeat "000"%byte 4) 4) ["010"; "020"]%byte).
Proof.
  apply (proj1 (wire_write_read (wire_ctx_init (repeat "000"%byte 4) 4)
                  ["010"; "020"]%byte eq_refl eq_refl
                  (conj eq_refl (Nat.le_0_l 4))
                  ltac:(unfold wire_ctx_available, wire_ctx_offset; simpl; lia))).
Defined.

(** Big-endian bytes keep the number modulo [256 ^ n]. *)
Lemma be_value_bytes_mod (n : nat) (v : Z) :
  be_value (be_bytes n v) = v mod 256 ^ Z.of_nat n.
Proof.
  revert v. induction n as [ | n IH ]; intros v.
  - unfold be_value. simpl. rewrite Z.mod_1_r. reflexivity.
  - cbn [be_bytes]. rewrite be_value_app, Z_of_byte_of_Z, IH.
    rewrite Nat2Z.inj_succ, Z.pow_succ_r by lia.
    rewrite (Z.rem_mul_r v 256 (256 ^ Z.of_nat n)) by lia. lia.
Qed.

(** An integer written in [n] bytes and read back from the same place. *)
Lemma write_read_be (ctx : wire_ctx_t) (n : nat) (v : Z) :
  error ctx = KNOT_EOK -> readonly ctx = false -> wire_wf ctx ->
  (n <= wire_ctx_available ctx)%nat ->
  be_value (fst (wire_ctx_read
                   (wire_ctx_set_offset (wire_ctx_write ctx (be_bytes n v)) (position ctx))
                   n))
  = v mod 256 ^ Z.of_nat n.
Proof.
  intros He Hro Hwf Hroom.
  assert (Hd : (length (be_bytes n v) <= wire_ctx_available ctx)%nat)
    by (rewrite length_be_bytes; exact Hroom).
  pose proof (proj1 (write_then_read ctx (be_bytes n v) He Hro Hwf Hd)) as Hread.
  rewrite length_be_bytes in Hread. rewrite Hread. simpl fst.
  apply be_value_bytes_mod.
Qed.

(** X5: the fixed-width integers round-trip in network byte order.  On a
    healthy writable context with 8 bytes of room, writing a value as
    u8, u16, u32, u48 or u64 and reading it back from the same position
    with the matching reader returns the value reduced to that width (the
    value itself when it fits). *)
Theorem wire_integers_roundtrip (ctx : wire_ctx_t) (v : Z) :
  error ctx = KNOT_EOK -> readonly ctx = false -> wire_wf ctx ->
  (8 <= wire_ctx_available ctx)%nat ->
  fst (wire_ctx_read_u8 (wire_ctx_set_offset (wire_ctx_write_u8 ctx v) (position ctx)))
  = v mod 2 ^ 8 /\
  fst (wire_ctx_read_u16 (wire_ctx_set_offset (wire_ctx_write_u16 ctx v) (position ctx)))
  = v mod 2 ^ 16 /\
  fst (wire_ctx_read_u32 (wire_ctx_set_offset (wire_ctx_write_u32 ctx v) (position ctx)))
  = v mod 2 ^ 32 /\
  fst (wire_ctx_read_u48 (wire_ctx_set_offset (wire_ctx_write_u48 ctx v) (position ctx)))
  = v mod 2 ^ 48 /\
  fst (wire_ctx_read_u64 (wire_ctx_set_offset (wire_ctx_write_u64 ctx v) (position ctx)))
  = v mod 2 ^ 64.
Proof.
  intros He Hro Hwf Hroom.
  assert (Hn : forall n : nat, (n <= 8)%nat ->
            forall ctx', ctx' = wire_ctx_set_offset (wire_ctx_write ctx (be_bytes n v))
                                  (position ctx) ->
            be_value (fst (wire_ctx_read ctx' n)) = v mod 256 ^ Z.of_nat n).
  { intros n Hle ctx' ->. apply write_read_be; auto; lia. }
  unfold wire_ctx_read_u8, wire_ctx_read_u16, wire_ctx_read_u32, wire_ctx_read_u48,
    wire_ctx_read_u64, wire_ctx_write_u8, wire_ctx_write_u16, wire_ctx_write_u32,
    wire_ctx_write_u48, wire_ctx_write_u64.
  repeat split;
    match goal with
    | |- fst (let '(_, _) := wire_ctx_read ?c ?n in _) = _ =>
        pose proof (Hn n ltac:(lia) c eq_refl) as H;
        destruct (wire_ctx_read c n) as [result c']; simpl fst in *; rewrite H;
        reflexivity
    end.
Qed.

(** 0x1234 and the too wide 0x12345 in a 16-bit field. *)
Lemma wire_integers_roundtrip_witness :
  fst (wire_ctx_read_u16
         (wire_ctx_set_offset
            (wire_ctx_write_u16 (wire_ctx_init (repeat "000"%byte 8) 8) 4660) 0))
  = 4660 /\
  fst (wire_ctx_read_u16
         (wire_ctx_set_offset
            (wire_ctx_write_u16 (wire_ctx_init (repeat "000"%byte 8) 8) 74565) 0))
  = 9029.
Proof.
  split.
  - apply (proj1 (proj2 (wire_integers_roundtrip (wire_ctx_init (repeat "000"%byte 8) 8)
                           4660 eq_refl eq_refl (conj eq_refl (Nat.le_0_l 8))
                           (Nat.le_refl 8)))).
  - apply (proj1 (proj2 (wire_integers_roundtrip (wire_ctx_init (repeat "000"%byte 8) 8)
                           74565 eq_refl eq_refl (conj eq_refl (Nat.le_0_l 8))
                           (Nat.le_refl 8)))).
Defined.

(** X6: who may change the bytes.  Reading, skipping and repositioning
    never change the buffer, whatever state the context is in; on a
    read-only context writing and clearing never change it either. *)
Theorem wire_buffer_kept (ctx : wire_ctx_t) (d : list byte) (n offset : nat) (k : Z) :
  wire (snd (wire_ctx_read ctx n)) = wire ctx /\
  wire (wire_ctx_skip ctx k) = wire ctx /\
  wire (wire_ctx_set_offset ctx offset) = wire ctx /\
  (readonly ctx = true ->
     wire (wire_ctx_write ctx d) = wire ctx /\ wire (wire_ctx_clear ctx n) = wire ctx).
Proof.
  split; [ | split; [ | split ] ].
  - unfold wire_ctx_read.
    destruct (negb (knot_is_eok (error ctx))); [ reflexivity | ].
    destruct (negb (knot_is_eok (wire_ctx_can_read ctx n))); reflexivity.
  - unfold wire_ctx_skip.
    destruct (negb (knot_is_eok (error ctx))); [ reflexivity | ].
    destruct (0 <=? k);
      match goal with |- context [ if ?c then _ else _ ] => destruct c end;
      reflexivity.
  - unfold wire_ctx_set_offset.
    destruct (negb (knot_is_eok (error ctx))); [ reflexivity | ].
    destruct (size ctx <? offset)%nat; reflexivity.
  - intros Hro. unfold wire_ctx_write, wire_ctx_clear, wire_ctx_can_write.
    rewrite Hro.
    destruct (negb (knot_is_eok (error ctx))); [ split; reflexivity | ].
    destruct (length d =? 0)%nat, (n =? 0)%nat; split; reflexivity.
Qed.

(** A write to a read-only view of two bytes leaves them alone. *)
Lemma wire_buffer_kept_witness :
  wire (wire_ctx_write (wire_ctx_init_const ["007"; "008"]%byte 2) ["001"%byte])
  = ["007"; "008"]%byte.
Proof.
  apply (proj2 (proj2 (proj2 (wire_buffer_kept (wire_ctx_init_const ["007"; "008"]%byte 2)
                                ["001"%byte] 0 0 0))) eq_refl).
Defined.

(** X7: skipping is bounds checked in both directions.  On a healthy
    context, a skip by [k] moves the position by [k] when the target lies
    within the buffer, and skipping back by [-k] then restores the
    context; when the target lies before the start or after the end the
    skip fails with KNOT_ERANGE and moves nothing. *)
Theorem wire_skip_bounds (ctx : wire_ctx_t) (k : Z) :
  error ctx = KNOT_EOK -> wire_wf ctx ->
  (0 <= Z.of_nat (position ctx) + k <= Z.of_nat (size ctx) ->
     wire_ctx_skip ctx k = set_position ctx (Z.to_nat (Z.of_nat (position ctx) + k)) /\
     wire_ctx_skip (wire_ctx_skip ctx k) (- k) = ctx) /\
  (~ 0 <= Z.of_nat (position ctx) + k <= Z.of_nat (size ctx) ->
     wire_ctx_skip ctx k = set_error ctx KNOT_ERANGE).
Proof.
  intros He [Hlen Hpos].
  assert (Hskip : forall c j, error c = KNOT_EOK -> (position c <= size c)%nat ->
            wire_ctx_skip c j
            = if (0 <=? Z.of_nat (position c) + j)
                 && (Z.of_nat (position c) + j <=? Z.of_nat (size c))
              then set_position c (Z.to_nat (Z.of_nat (position c) + j))
              else set_error c KNOT_ERANGE).
  { intros c j Hc Hp. unfold wire_ctx_skip, wire_ctx_available, wire_ctx_offset.
    rewrite Hc. simpl.
    destruct (Z.leb_spec 0 j).
    - destruct (Z.ltb_spec (Z.of_nat (size c - position c)) j),
               (Z.leb_spec 0 (Z.of_nat (position c) + j)),
               (Z.leb_spec (Z.of_nat (position c) + j) (Z.of_nat (size c)));
        simpl; try reflexivity; lia.
    - destruct (Z.ltb_spec (Z.of_nat (position c)) (- j)),
               (Z.leb_spec 0 (Z.of_nat (position c) + j)),
               (Z.leb_spec (Z.of_nat (position c) + j) (Z.of_nat (size c)));
        simpl; try reflexivity; lia. }
  rewrite (Hskip ctx k He Hpos). split.
  - intros [Hlo Hhi].
    destruct (Z.leb_spec 0 (Z.of_nat (position ctx) + k)); [ | lia ].
    destruct (Z.leb_spec (Z.of_nat (position ctx) + k) (Z.of_nat (size ctx))); [ | lia ].
    simpl. split; [ reflexivity | ].
    rewrite Hskip; simpl; [ | exact He | lia ].
    rewrite Z2Nat.id by lia.
    replace (Z.of_nat (position ctx) + k + - k) with (Z.of_nat (position ctx)) by lia.
    destruct (Z.leb_spec 0 (Z.of_nat (position ctx))); [ | lia ].
    destruct (Z.leb_spec (Z.of_nat (position ctx)) (Z.of_nat (size ctx))); [ | lia ].
    simpl. unfold set_position. simpl. rewrite Nat2Z.id.
    destruct ctx; reflexivity.
  - intros Hout.
    destruct (Z.leb_spec 0 (Z.of_nat (position ctx) + k)),
             (Z.leb_spec (Z.of_nat (position ctx) + k) (Z.of_nat (size ctx)));
      simpl; try reflexivity; lia.
Qed.

(** In a four-byte buffer a skip by 5 is refused. *)
Lemma wire_skip_bounds_witness :
  wire_ctx_skip (wire_ctx_init (repeat "000"%byte 4) 4) 5
  = set_error (wire_ctx_init (repeat "000"%byte 4) 4) KNOT_ERANGE.
Proof.
  apply (proj2 (wire_skip_bounds (wire_ctx_init (repeat "000"%byte 4) 4) 5
                  eq_refl (conj eq_refl (Nat.le_0_l 4)))).
  simpl. lia.
Defined.

(** X8: copying is reading from the source and writing to the
    destination, except that a failed copy never moves the source.  With a
    healthy destination that can take [sz] bytes and a well-formed source
    that can supply them, [wire_ctx_copy] leaves both contexts as a read of
    [sz] bytes from the source followed by a write of these bytes to the
    destination does.  When the source cannot supply them (short of data,
    or carrying an error) the destination gets KNOT_EFEWDATA; when the
    destination cannot take them it gets its own write error; in both
    cases the source is left as it was. *)
Theorem wire_copy_read_write (dst src : wire_ctx_t) (sz : nat) :
  error dst = KNOT_EOK ->
  (wire_ctx_can_read src sz = KNOT_EOK -> wire_wf src ->
   sz = 0%nat \/ wire_ctx_can_write dst sz = KNOT_EOK ->
     wire_ctx_copy dst src sz
     = (wire_ctx_write dst (fst (wire_ctx_read src sz)), snd (wire_ctx_read src sz))) /\
  (sz <> 0%nat -> wire_ctx_can_read src sz <> KNOT_EOK ->
     wire_ctx_copy dst src sz = (set_error dst KNOT_EFEWDATA, src)) /\
  (sz <> 0%nat -> wire_ctx_can_read src sz = KNOT_EOK ->
   wire_ctx_can_write dst sz <> KNOT_EOK ->
     wire_ctx_copy dst src sz = (set_error dst (wire_ctx_can_write dst sz), src)).
Proof.
  intros Hd. split; [ | split ].
  - intros Hcan [Hlen Hpos] Hdst.
    assert (Hsrc : error src = KNOT_EOK).
    { unfold wire_ctx_can_read in Hcan.
      destruct (negb (knot_is_eok (error src))) eqn:E; [ | ].
      - rewrite Hcan in E. discriminate E.
      - apply negb_false_iff, knot_is_eok_true in E. exact E. }
    assert (Havail : (sz <= size src - position src)%nat).
    { unfold wire_ctx_can_read, wire_ctx_available, wire_ctx_offset in Hcan.
      rewrite Hsrc in Hcan. simpl in Hcan.
      destruct (Nat.ltb_spec (size src - position src) sz); [ discriminate | lia ]. }
    unfold wire_ctx_copy, wire_ctx_read. rewrite Hd, Hsrc, Hcan. simpl negb.
    rewrite orb_false_r. cbv iota. simpl fst. simpl snd.
    assert (Hdata : length (firstn sz (skipn (position src) (wire src))) = sz).
    { rewrite length_firstn, length_skipn. lia. }
    unfold wire_ctx_write. rewrite Hd, Hdata. simpl negb. cbv iota.
    destruct (Nat.eqb_spec sz 0) as [Hz | Hnz].
    + subst sz. f_equal. unfold set_position. rewrite Nat.add_0_r.
      destruct src; reflexivity.
    + destruct Hdst as [Hz | Hok]; [ contradiction | ].
      rewrite Hok. simpl negb. cbv iota.
      unfold put. rewrite Hdata, Hd. reflexivity.
  - intros Hnz Hcan. unfold wire_ctx_copy. rewrite Hd.
    destruct (Nat.eqb_spec sz 0); [ contradiction | ]. simpl.
    apply knot_is_eok_false in Hcan. rewrite Hcan. reflexivity.
  - intros Hnz Hcan Hw. unfold wire_ctx_copy. rewrite Hd, Hcan.
    destruct (Nat.eqb_spec sz 0); [ contradiction | ]. simpl.
    apply knot_is_eok_false in Hw. rewrite Hw. reflexivity.
Qed.

(** Two bytes copied from a view of "ab" into an empty four-byte buffer. *)
Lemma wire_copy_read_write_witness :
  wire (fst (wire_ctx_copy (wire_ctx_init (repeat "000"%byte 4) 4)
               (wire_ctx_init_const ["a"; "b"]%byte 2) 2))
  = ["a"; "b"; "000"; "000"]%byte.
Proof.
  rewrite (proj1 (wire_copy_read_write (wire_ctx_init (repeat "000"%byte 4) 4)
                    (wire_ctx_init_const ["a"; "b"]%byte 2) 2 eq_refl)
             eq_refl (conj eq_refl (Nat.le_0_l 2)) (or_intror eq_refl)).
  reflexivity.
Defined.

End Wire.

(** ** knot/journal/serialization.c (RRset encoding) *)

Module Serialization.

Import Wire.

(** Modelled from the spec: [serialize_rrset] (knot/journal/serialization.c)
    is not among the sources.  The specification has each family
    length-prefixed and round-trippable on its own: the RDATA count is
    written as a 16-bit number, then each RDATA as its 16-bit length
    followed by its bytes, in storage order.  The code returned is the
    error state of the wire context. *)
Definition serialize_rrset (wire : wire_ctx_t) (rrset : knot_rrset_t)
    : knot_error * wire_ctx_t :=
  let wire := wire_ctx_write_u16 wire (Z.of_nat (length (rrs rrset))) in
  let wire :=
    fold_left
      (fun w rd => wire_ctx_write (wire_ctx_write_u16 w (Z.of_nat (length rd))) rd)
      (rrs rrset) wire in
  (error wire, wire).

(** Modelled from the spec: the loop of [deserialize_rrset] over the
    announced RDATA count; each RDATA read is appended, so the order is
    preserved, and a read past the end of the data (truncation) clears the
    RRset and fails with the decode error KNOT_EMALF. *)
Fixpoint read_rdata (n : nat) (wire : wire_ctx_t) (rrset : knot_rrset_t)
    : knot_error * wire_ctx_t * knot_rrset_t :=
  match n with
  | O => (KNOT_EOK, wire, rrset)
  | S n' =>
    let '(rdlen, wire) := wire_ctx_read_u16 wire in
    let '(rdata, wire) := wire_ctx_read wire (Z.to_nat rdlen) in
    if negb (knot_is_eok (error wire)) then (KNOT_EMALF, wire, set_rrs rrset [])
    else read_rdata n' wire (set_rrs rrset (rrs rrset ++ [rdata]))
  end.

(** Modelled from the spec: [deserialize_rrset]
    (knot/journal/serialization.c), the inverse of [serialize_rrset]. *)
Definition deserialize_rrset (wire : wire_ctx_t) (rrset : knot_rrset_t)
    : knot_error * wire_ctx_t * knot_rrset_t :=
  let '(rrcount, wire) := wire_ctx_read_u16 wire in
  if negb (knot_is_eok (error wire)) then (KNOT_EMALF, wire, rrset)
  else read_rdata (Z.to_nat rrcount) wire rrset.

(** Modelled from the spec: [rrset_serialized_size], the number of bytes
    [serialize_rrset] writes. *)
Definition rrset_serialized_size (rrset : knot_rrset_t) : nat :=
  (2 + fold_right (fun rd acc => 2 + length rd + acc) 0 (rrs rrset))%nat.

(** The bytes an RRset is encoded as. *)
Definition encode_rdata (rd : knot_rdata_t) : list byte :=
  be_bytes 2 (Z.of_nat (length rd)) ++ rd.

Definition encode_rrset (rrset : knot_rrset_t) : list byte :=
  be_bytes 2 (Z.of_nat (length (rrs rrset))) ++ flat_map encode_rdata (rrs rrset).

(** What the 16-bit fields of [knot_rdataset_t] and [knot_rdata_t] can
    hold: fewer than 65536 RDATA, each shorter than 65536 bytes. *)
Definition rdata_wf (rd : knot_rdata_t) : Prop := Z.of_nat (length rd) < 65536.

Definition rrset_wf (rrset : knot_rrset_t) : Prop :=
  Z.of_nat (length (rrs rrset)) < 65536 /\ Forall rdata_wf (rrs rrset).

Arguments be_bytes : simpl never.
Arguments encode_rdata : simpl never.

Lemma length_encode_rdataset (rs : knot_rdataset_t) :
  length (flat_map encode_rdata rs)
  = fold_right (fun rd acc => 2 + length rd + acc)%nat 0%nat rs.
Proof.
  induction rs as [ | rd rs IH ]; cbn [flat_map fold_right]; [ reflexivity | ].
  rewrite length_app, IH. unfold encode_rdata.
  rewrite length_app, length_be_bytes. lia.
Qed.

Lemma length_encode_rrset (rrset : knot_rrset_t) :
  length (encode_rrset rrset) = rrset_serialized_size rrset.
Proof.
  unfold encode_rrset, rrset_serialized_size.
  rewrite length_app, length_be_bytes, length_encode_rdataset. reflexivity.
Qed.

(** The RDATA loop of [serialize_rrset] where there is room. *)
Lemma write_rdataset_at (sz : nat) (rs : knot_rdataset_t) :
  forall done rest : list byte,
    sz = (length done + length rest)%nat ->
    (length (flat_map encode_rdata rs) <= length rest)%nat ->
    fold_left
      (fun w rd => wire_ctx_write (wire_ctx_write_u16 w (Z.of_nat (length rd))) rd)
      rs (at_pos sz false done rest)
    = at_pos sz false (done ++ flat_map encode_rdata rs)
        (skipn (length (flat_map encode_rdata rs)) rest).
Proof.
  induction rs as [ | rd rs IH ]; intros done rest Hsz Hroom.
  - cbn [flat_map fold_left length skipn]. rewrite app_nil_r. reflexivity.
  - cbn [flat_map fold_left] in *. rewrite length_app in Hroom.
    assert (Hrd : length (encode_rdata rd) = (2 + length rd)%nat).
    { unfold encode_rdata. rewrite length_app, length_be_bytes. reflexivity. }
    rewrite wire_ctx_write_u16_at by (auto; lia).
    rewrite wire_ctx_write_at;
      [ | rewrite length_app, length_be_bytes, length_skipn; lia
        | rewrite length_skipn; lia ].
    rewrite IH;
      [ | rewrite !length_app, length_be_bytes, !length_skipn; lia
        | rewrite !length_skipn; lia ].
    rewrite !skipn_skipn, length_app, Hrd.
    unfold encode_rdata. rewrite <- !app_assoc.
    f_equal. f_equal. lia.
Qed.

(** Serializing an RRset where there is room writes its encoding. *)
Lemma serialize_rrset_at (sz : nat) (done rest : list byte) (rrset : knot_rrset_t) :
  sz = (length done + length rest)%nat ->
  (rrset_serialized_size rrset <= length rest)%nat ->
  serialize_rrset (at_pos sz false done rest) rrset
  = (KNOT_EOK,
     at_pos sz false (done ++ encode_rrset rrset)
       (skipn (rrset_serialized_size rrset) rest)).
Proof.
  intros Hsz Hroom. unfold serialize_rrset, rrset_serialized_size in *.
  rewrite <- length_encode_rdataset in *.
  rewrite wire_ctx_write_u16_at by (auto; lia).
  rewrite write_rdataset_at;
    [ | rewrite length_app, length_be_bytes, length_skipn; lia
      | rewrite length_skipn; lia ].
  simpl error. rewrite skipn_skipn. unfold encode_rrset.
  rewrite <- app_assoc. do 3 f_equal. lia.
Qed.

(** The RDATA loop of [deserialize_rrset] over an encoding. *)
Lemma read_rdata_at (sz : nat) (ro : bool) (rs : knot_rdataset_t) :
  forall (done rest : list byte) (rrset : knot_rrset_t),
    Forall rdata_wf rs ->
    sz = (length done + length (flat_map encode_rdata rs ++ rest))%nat ->
    read_rdata (length rs) (at_pos sz ro done (flat_map encode_rdata rs ++ rest)) rrset
    = (KNOT_EOK, at_pos sz ro (done ++ flat_map encode_rdata rs) rest,
       set_rrs rrset (rrs rrset ++ rs)).
Proof.
  induction rs as [ | rd rs IH ]; intros done rest rrset Hwf Hsz.
  - simpl. rewrite !app_nil_r. destruct rrset; reflexivity.
  - inversion Hwf as [ | rd' rs' Hrd Hrs ]; subst rd' rs'. unfold rdata_wf in Hrd.
    cbn [flat_map length read_rdata] in *.
    assert (Hlen : length (encode_rdata rd) = (2 + length rd)%nat).
    { unfold encode_rdata. rewrite length_app, length_be_bytes. reflexivity. }
    rewrite !length_app, Hlen in Hsz.
    unfold encode_rdata at 1. rewrite <- !app_assoc.
    rewrite wire_ctx_read_u16_at;
      [ | rewrite !length_app, length_be_bytes; lia | lia ].
    rewrite Nat2Z.id.
    rewrite wire_ctx_read_at;
      [ | rewrite !length_app, length_be_bytes; lia ].
    simpl error. simpl negb. cbv iota.
    rewrite IH;
      [ | exact Hrs | rewrite !length_app, length_be_bytes; lia ].
    cbn [rrs set_rrs]. unfold encode_rdata at 3. rewrite <- !app_assoc.
    reflexivity.
Qed.

(** Deserializing where an encoding starts appends the encoded RDATA. *)
Lemma deserialize_rrset_at (sz : nat) (ro : bool) (done rest : list byte)
    (rrset target : knot_rrset_t) :
  rrset_wf rrset ->
  sz = (length done + length (encode_rrset rrset ++ rest))%nat ->
  deserialize_rrset (at_pos sz ro done (encode_rrset rrset ++ rest)) target
  = (KNOT_EOK, at_pos sz ro (done ++ encode_rrset rrset) rest,
     set_rrs target (rrs target ++ rrs rrset)).
Proof.
  intros [Hcount Hwf] Hsz. unfold deserialize_rrset, encode_rrset in *.
  rewrite <- !app_assoc in *.
  rewrite wire_ctx_read_u16_at; [ | exact Hsz | lia ].
  simpl error. simpl negb. cbv iota. rewrite Nat2Z.id.
  rewrite read_rdata_at; [ rewrite <- app_assoc; reflexivity | exact Hwf | ].
  rewrite Hsz, !length_app. lia.
Qed.

End Serialization.

(** ** knot/dnssec/key_records.c *)

Module KeyRecords.

(** [key_records_t]: the four families kept at the zone apex. *)
Record key_records_t : Type := {
  dnskey : knot_rrset_t;
  cdnskey : knot_rrset_t;
  cds : knot_rrset_t;
  rrsig : knot_rrset_t
}.

(** The member of [key_records_t] a pointer such as [to_add] refers to. *)
Inductive family : Type :=
  | F_DNSKEY
  | F_CDNSKEY
  | F_CDS
  | F_RRSIG.

Definition get_family (r : key_records_t) (f : family) : knot_rrset_t :=
  match f with
  | F_DNSKEY => dnskey r
  | F_CDNSKEY => cdnskey r
  | F_CDS => cds r
  | F_RRSIG => rrsig r
  end.

Definition set_family (r : key_records_t) (f : family) (rr : knot_rrset_t) : key_records_t :=
  match f with
  | F_DNSKEY => {| dnskey := rr; cdnskey := cdnskey r; cds := cds r; rrsig := rrsig r |}
  | F_CDNSKEY => {| dnskey := dnskey r; cdnskey := rr; cds := cds r; rrsig := rrsig r |}
  | F_CDS => {| dnskey := dnskey r; cdnskey := cdnskey r; cds := rr; rrsig := rrsig r |}
  | F_RRSIG => {| dnskey := dnskey r; cdnskey := cdnskey r; cds := cds r; rrsig := rr |}
  end.

(** The RR type each family holds. *)
Definition family_type (f : family) : Z :=
  match f with
  | F_DNSKEY => KNOT_RRTYPE_DNSKEY
  | F_CDNSKEY => KNOT_RRTYPE_CDNSKEY
  | F_CDS => KNOT_RRTYPE_CDS
  | F_RRSIG => KNOT_RRTYPE_RRSIG
  end.

Lemma get_set_family_same (r : key_records_t) (f : family) (rr : knot_rrset_t) :
  get_family (set_family r f rr) f = rr.
Proof. destruct f; reflexivity. Qed.

Lemma get_set_family_other (r : key_records_t) (f g : family) (rr : knot_rrset_t) :
  g <> f -> get_family (set_family r f rr) g = get_family r g.
Proof. destruct f, g; simpl; congruence. Qed.

Lemma set_get_family (r : key_records_t) (f : family) :
  set_family r f (get_family r f) = r.
Proof. destruct r, f; reflexivity. Qed.

(** [key_records_clear_rdatasets] *)
Definition key_records_clear_rdatasets (r : key_records_t) : key_records_t :=
  {| dnskey := set_rrs (dnskey r) []; cdnskey := set_rrs (cdnskey r) [];
     cds := set_rrs (cds r) []; rrsig := set_rrs (rrsig r) [] |}.

(** *** key_records_add_rdata *)

Section AddRdata.

(** libknot's [knot_rrset_add_rdata] (with the NULL memory context): the
    error code and the RRset it leaves behind. *)
Variable knot_rrset_add_rdata : knot_rrset_t -> knot_rdata_t -> knot_error * knot_rrset_t.

(** The switch over [rrtype]; [None] is the default case. *)
Definition select_family (rrtype : Z) : option family :=
  if rrtype =? KNOT_RRTYPE_DNSKEY then Some F_DNSKEY
  else if rrtype =? KNOT_RRTYPE_CDNSKEY then Some F_CDNSKEY
  else if rrtype =? KNOT_RRTYPE_CDS then Some F_CDS
  else if rrtype =? KNOT_RRTYPE_RRSIG then Some F_RRSIG
  else None.

(** [key_records_add_rdata]; [rdata] carries its [rdlen]. *)
Definition key_records_add_rdata
    (r : key_records_t) (rrtype : Z) (rdata : knot_rdata_t) (ttl : Z)
    : knot_error * key_records_t :=
  match select_family rrtype with
  | None => (KNOT_EINVAL, r)
  | Some to_add =>
    let '(ret, rr) := knot_rrset_add_rdata (get_family r to_add) rdata in
    let rr := if knot_is_eok ret then set_ttl rr ttl else rr in
    (ret, set_family r to_add rr)
  end.

Lemma select_family_type (f : family) : select_family (family_type f) = Some f.
Proof. destruct f; reflexivity. Qed.

Lemma select_family_other (rrtype : Z) :
  (forall f, rrtype <> family_type f) -> select_family rrtype = None.
Proof.
  intros Hn. unfold select_family.
  destruct (Z.eqb_spec rrtype KNOT_RRTYPE_DNSKEY) as [E|_]; [ elim (Hn F_DNSKEY E) | ].
  destruct (Z.eqb_spec rrtype KNOT_RRTYPE_CDNSKEY) as [E|_]; [ elim (Hn F_CDNSKEY E) | ].
  destruct (Z.eqb_spec rrtype KNOT_RRTYPE_CDS) as [E|_]; [ elim (Hn F_CDS E) | ].
  destruct (Z.eqb_spec rrtype KNOT_RRTYPE_RRSIG) as [E|_]; [ elim (Hn F_RRSIG E) | ].
  reflexivity.
Qed.

(** C4: for an RR type that is none of DNSKEY, CDNSKEY, CDS and RRSIG the
    call fails with KNOT_EINVAL and the record set is unchanged; for the
    type of a family [f], when the RDATA is added successfully, the call
    succeeds, family [f] is what the addition left with its TTL set to the
    supplied value (whatever TTL it had before), and the other families
    are untouched. *)
Theorem add_rdata_spec
    (r : key_records_t) (rrtype : Z) (rdata : knot_rdata_t) (t : Z) :
  ((forall f, rrtype <> family_type f) ->
     key_records_add_rdata r rrtype rdata t = (KNOT_EINVAL, r)) /\
  (forall f, rrtype = family_type f ->
     fst (knot_rrset_add_rdata (get_family r f) rdata) = KNOT_EOK ->
     let res := key_records_add_rdata r rrtype rdata t in
     fst res = KNOT_EOK /\
     ttl (get_family (snd res) f) = t /\
     get_family (snd res) f
     = set_ttl (snd (knot_rrset_add_rdata (get_family r f) rdata)) t /\
     forall g, g <> f -> get_family (snd res) g = get_family r g).
Proof.
  split.
  - intros Hn. unfold key_records_add_rdata.
    rewrite (select_family_other _ Hn). reflexivity.
  - intros f -> Hok res. subst res. unfold key_records_add_rdata.
    rewrite select_family_type.
    destruct (knot_rrset_add_rdata (get_family r f) rdata) as [ret rr] eqn:E.
    simpl in Hok. subst ret. simpl.
    rewrite get_set_family_same.
    repeat split. intros g Hg. apply get_set_family_other, Hg.
Qed.

(** X17: a failed addition does not refresh the TTL.  For the type of a
    family [f], when [knot_rrset_add_rdata] fails, its error is returned,
    family [f] is left exactly as the failed addition left it (its TTL is
    not overwritten with the supplied one), and the other families are
    untouched. *)
Theorem add_rdata_failure
    (r : key_records_t) (f : family) (rdata : knot_rdata_t) (t : Z) :
  fst (knot_rrset_add_rdata (get_family r f) rdata) <> KNOT_EOK ->
  let res := key_records_add_rdata r (family_type f) rdata t in
  fst res = fst (knot_rrset_add_rdata (get_family r f) rdata) /\
  get_family (snd res) f = snd (knot_rrset_add_rdata (get_family r f) rdata) /\
  forall g, g <> f -> get_family (snd res) g = get_family r g.
Proof.
  intros Hfail res. subst res. unfold key_records_add_rdata.
  rewrite select_family_type.
  destruct (knot_rrset_add_rdata (get_family r f) rdata) as [ret rr].
  simpl in Hfail. apply knot_is_eok_false in Hfail. rewrite Hfail. simpl.
  rewrite get_set_family_same.
  repeat split. intros g Hg. apply get_set_family_other, Hg.
Qed.

End AddRdata.

(** An [knot_rrset_add_rdata] that appends, for running the statements. *)
Definition append_rdata (rr : knot_rrset_t) (rdata : knot_rdata_t)
    : knot_error * knot_rrset_t :=
  (KNOT_EOK, set_rrs rr (rrs rr ++ [rdata])).

Definition example_apex : knot_dname_t := ["003"; "c"; "o"; "m"; "000"]%byte.

(** Key records as [key_records_init] makes them for a DNSKEY TTL of 3600. *)
Definition example_records : key_records_t :=
  {| dnskey := knot_rrset_init example_apex KNOT_RRTYPE_DNSKEY KNOT_CLASS_IN 3600;
     cdnskey := knot_rrset_init example_apex KNOT_RRTYPE_CDNSKEY KNOT_CLASS_IN 0;
     cds := knot_rrset_init example_apex KNOT_RRTYPE_CDS KNOT_CLASS_IN 0;
     rrsig := knot_rrset_init example_apex KNOT_RRTYPE_RRSIG KNOT_CLASS_IN 3600 |}.

(** An A record (type 1) is refused; a CDS added with TTL 7200 moves the
    CDS family from TTL 0 to 7200. *)
Lemma add_rdata_spec_witness :
  key_records_add_rdata append_rdata example_records 1 ["001"%byte] 7200
  = (KNOT_EINVAL, example_records) /\
  ttl (cds (snd (key_records_add_rdata append_rdata example_records
                   KNOT_RRTYPE_CDS ["001"%byte] 7200))) = 7200.
Proof.
  split.
  - apply (proj1 (add_rdata_spec append_rdata example_records 1 ["001"%byte] 7200)).
    intros f; destruct f; discriminate.
  - apply (proj2 (add_rdata_spec append_rdata example_records KNOT_RRTYPE_CDS
                    ["001"%byte] 7200) F_CDS eq_refl eq_refl).
Defined.

(** An [knot_rrset_add_rdata] that is out of memory. *)
Definition refuse_rdata (rr : knot_rrset_t) (rdata : knot_rdata_t)
    : knot_error * knot_rrset_t :=
  (KNOT_ENOMEM, rr).

(** A refused CDS with TTL 7200 leaves the CDS family at TTL 0. *)
Lemma add_rdata_failure_witness :
  fst (key_records_add_rdata refuse_rdata example_records KNOT_RRTYPE_CDS
         ["001"%byte] 7200) = KNOT_ENOMEM /\
  cds (snd (key_records_add_rdata refuse_rdata example_records KNOT_RRTYPE_CDS
              ["001"%byte] 7200)) = cds example_records.
Proof.
  pose proof (add_rdata_failure refuse_rdata example_records F_CDS ["001"%byte] 7200
                ltac:(discriminate)) as (Hret & Hfam & _).
  split; [ exact Hret | exact Hfam ].
Defined.

(** *** key_records_to_changeset *)

Section ToChangeset.

(** The changeset and its flags belong to knot/updates/changesets.h; the
    two append operations return the error code and the changeset they
    leave behind. *)
Variable changeset_t : Type.
Variable changeset_flag_t : Type.
Variable changeset_add_addition :
  changeset_t -> knot_rrset_t -> changeset_flag_t -> knot_error * changeset_t.
Variable changeset_add_removal :
  changeset_t -> knot_rrset_t -> changeset_flag_t -> knot_error * changeset_t.

(** [add_one] *)
Definition add_one (rr : knot_rrset_t) (ch : changeset_t) (rem : bool)
    (fl : changeset_flag_t) (ret : knot_error) : knot_error * changeset_t :=
  if knot_is_eok ret && negb (knot_rrset_empty rr) then
    if rem then changeset_add_removal ch rr fl
    else changeset_add_addition ch rr fl
  else (ret, ch).

(** [key_records_to_changeset] *)
Definition key_records_to_changeset (r : key_records_t) (ch : changeset_t)
    (rem : bool) (chfl : changeset_flag_t) : knot_error * changeset_t :=
  let ret := KNOT_EOK in
  let '(ret, ch) := add_one (dnskey r) ch rem chfl ret in
  let '(ret, ch) := add_one (cdnskey r) ch rem chfl ret in
  let '(ret, ch) := add_one (cds r) ch rem chfl ret in
  (ret, ch).

(** The specification's reading: append the given RRsets one after the
    other, as removals or as additions, and stop at the first error. *)
Fixpoint append_until_error (rem : bool) (fl : changeset_flag_t)
    (l : list knot_rrset_t) (ch : changeset_t) : knot_error * changeset_t :=
  match l with
  | [] => (KNOT_EOK, ch)
  | rr :: l' =>
    let '(ret, ch') := if rem then changeset_add_removal ch rr fl
                       else changeset_add_addition ch rr fl in
    if knot_is_eok ret then append_until_error rem fl l' ch' else (ret, ch')
  end.

Definition non_empty (rr : knot_rrset_t) : bool := negb (knot_rrset_empty rr).

Lemma add_one_error (rr : knot_rrset_t) (ch : changeset_t) (rem : bool)
    (fl : changeset_flag_t) (ret : knot_error) :
  ret <> KNOT_EOK -> add_one rr ch rem fl ret = (ret, ch).
Proof.
  intros H. unfold add_one. apply knot_is_eok_false in H. rewrite H. reflexivity.
Qed.

(** C5: the DNSKEY, CDNSKEY and CDS families that are not empty are
    appended in this order, as removals or additions according to [rem]
    and with the given flags; appending stops at the first error, which is
    returned; the RRSIG family plays no part. *)
Theorem to_changeset_spec (r : key_records_t) (ch : changeset_t)
    (rem : bool) (chfl : changeset_flag_t) :
  key_records_to_changeset r ch rem chfl
  = append_until_error rem chfl (filter non_empty [dnskey r; cdnskey r; cds r]) ch
  /\ forall sigs : knot_rrset_t,
       key_records_to_changeset (set_family r F_RRSIG sigs) ch rem chfl
       = key_records_to_changeset r ch rem chfl.
Proof.
  split; [ | reflexivity ].
  unfold key_records_to_changeset, add_one, non_empty. simpl.
  destruct (knot_rrset_empty (dnskey r)); simpl.
  - destruct (knot_rrset_empty (cdnskey r)); simpl.
    + destruct (knot_rrset_empty (cds r)); simpl; [ reflexivity | ].
      destruct (if rem then _ else _) as [ret ch1].
      destruct ret; reflexivity.
    + destruct (if rem then _ else _) as [ret ch1].
      destruct ret; simpl; try reflexivity.
      destruct (knot_rrset_empty (cds r)); simpl; [ reflexivity | ].
      destruct (if rem then _ else _) as [ret ch2].
      destruct ret; reflexivity.
  - destruct (if rem then _ else _) as [ret ch1].
    destruct ret; simpl; try reflexivity.
    destruct (knot_rrset_empty (cdnskey r)); simpl.
    + destruct (knot_rrset_empty (cds r)); simpl; [ reflexivity | ].
      destruct (if rem then _ else _) as [ret ch2].
      destruct ret; reflexivity.
    + destruct (if rem then _ else _) as [ret ch2].
      destruct ret; simpl; try reflexivity.
      destruct (knot_rrset_empty (cds r)); simpl; [ reflexivity | ].
      destruct (if rem then _ else _) as [ret ch3].
      destruct ret; reflexivity.
Qed.

(** With every family empty nothing is appended and the call succeeds. *)
Lemma to_changeset_empty (r : key_records_t) (ch : changeset_t)
    (rem : bool) (chfl : changeset_flag_t) :
  knot_rrset_empty (dnskey r) = true ->
  knot_rrset_empty (cdnskey r) = true ->
  knot_rrset_empty (cds r) = true ->
  key_records_to_changeset r ch rem chfl = (KNOT_EOK, ch).
Proof.
  intros H1 H2 H3. unfold key_records_to_changeset, add_one.
  rewrite H1, H2, H3. reflexivity.
Qed.

End ToChangeset.

(** A changeset that logs what it is given, in order: whether the entry is
    a removal, the RRset and the flags; it refuses RRsets of a class other
    than IN. *)
Definition log_changeset : Type := list (bool * knot_rrset_t * Z).

Definition log_add (rem : bool) (ch : log_changeset) (rr : knot_rrset_t) (fl : Z)
    : knot_error * log_changeset :=
  if rclass rr =? KNOT_CLASS_IN then (KNOT_EOK, ch ++ [(rem, rr, fl)])
  else (KNOT_EINVAL, ch).

(** Records with a DNSKEY, no CDNSKEY, a CDS and an RRSIG. *)
Definition example_populated : key_records_t :=
  {| dnskey := set_rrs (dnskey example_records) [["001"; "001"; "003"; "015"]%byte];
     cdnskey := cdnskey example_records;
     cds := set_rrs (cds example_records) [["000"; "042"; "015"; "002"]%byte];
     rrsig := set_rrs (rrsig example_records) [["000"; "048"]%byte] |}.

(** DNSKEY and CDS are logged as removals with the flags; the empty CDNSKEY
    and the RRSIG are not. *)
Lemma to_changeset_spec_witness :
  key_records_to_changeset log_changeset Z (log_add false) (log_add true)
    example_populated [] true 4
  = (KNOT_EOK, [ (true, dnskey example_populated, 4); (true, cds example_populated, 4) ]).
Proof.
  rewrite (proj1 (to_changeset_spec log_changeset Z (log_add false) (log_add true)
                    example_populated [] true 4)).
  reflexivity.
Defined.

(** *** The DNSSEC context *)

Section Dnssec.

(** [knot_kasp_zone_t], the KASP zone [kctx->zone] points to, with its
    zone name. *)
Variable knot_kasp_zone_t : Type.
Variable kasp_zone_dname : knot_kasp_zone_t -> knot_dname_t.

(** [kdnssec_ctx_t], as far as key records read or write it; [dnskey_ttl]
    stands for [ctx->policy->dnskey_ttl] and [zone] for the KASP zone
    behind the [zone] pointer. *)
Record kdnssec_ctx_t : Type := {
  now : Z;
  zone : knot_kasp_zone_t;
  dnskey_ttl : Z;
  keytag_conflict : bool
}.

Definition set_now (kctx : kdnssec_ctx_t) (t : Z) : kdnssec_ctx_t :=
  {| now := t; zone := zone kctx; dnskey_ttl := dnskey_ttl kctx;
     keytag_conflict := keytag_conflict kctx |}.

Definition set_zone_keys (kctx : kdnssec_ctx_t) (z : knot_kasp_zone_t) (conflict : bool)
    : kdnssec_ctx_t :=
  {| now := now kctx; zone := z; dnskey_ttl := dnskey_ttl kctx;
     keytag_conflict := conflict |}.

(** [key_records_init] *)
Definition key_records_init (ctx : kdnssec_ctx_t) : key_records_t :=
  {| dnskey := knot_rrset_init (kasp_zone_dname (zone ctx)) KNOT_RRTYPE_DNSKEY
                 KNOT_CLASS_IN (dnskey_ttl ctx);
     cdnskey := knot_rrset_init (kasp_zone_dname (zone ctx)) KNOT_RRTYPE_CDNSKEY
                  KNOT_CLASS_IN 0;
     cds := knot_rrset_init (kasp_zone_dname (zone ctx)) KNOT_RRTYPE_CDS
              KNOT_CLASS_IN 0;
     rrsig := knot_rrset_init (kasp_zone_dname (zone ctx)) KNOT_RRTYPE_RRSIG
                KNOT_CLASS_IN (dnskey_ttl ctx) |}.

(** *** key_records_sign *)

Section Sign.

(** Zone keys, libdnssec keys and signing contexts are opaque here;
    [zone_key_key] is the member [key->key].  [dnssec_sign_new] returns its
    code and the value [sign_ctx] holds after the call. *)
Variable zone_key_t : Type.
Variable dnssec_key_t : Type.
Variable dnssec_sign_ctx_t : Type.
Variable zone_key_key : zone_key_t -> dnssec_key_t.
Variable dnssec_sign_new : dnssec_key_t -> dnssec_error * dnssec_sign_ctx_t.
Variable knot_error_from_libdnssec : dnssec_error -> knot_error.
Variable knot_zone_sign_use_key : zone_key_t -> knot_rrset_t -> bool.

(** [knot_sign_rrset rrsigs covered key sign_ctx kctx]: the code and the
    RRSIG RRset after the call. *)
Variable knot_sign_rrset :
  knot_rrset_t -> knot_rrset_t -> dnssec_key_t -> dnssec_sign_ctx_t ->
  kdnssec_ctx_t -> knot_error * knot_rrset_t.

(** [key_records_sign] *)
Definition key_records_sign (key : zone_key_t) (r : key_records_t)
    (kctx : kdnssec_ctx_t) : knot_error * key_records_t :=
  let '(dret, sign_ctx) := dnssec_sign_new (zone_key_key key) in
  let ret := match dret with
             | DNSSEC_EOK => KNOT_EOK
             | _ => knot_error_from_libdnssec dret
             end in
  let '(ret, r) :=
    if negb (knot_rrset_empty (dnskey r)) && knot_zone_sign_use_key key (dnskey r)
    then let '(ret, sigs) := knot_sign_rrset (rrsig r) (dnskey r) (zone_key_key key)
                               sign_ctx kctx in
         (ret, set_family r F_RRSIG sigs)
    else (ret, r) in
  let '(ret, r) :=
    if knot_is_eok ret && negb (knot_rrset_empty (cdnskey r))
       && knot_zone_sign_use_key key (cdnskey r)
    then let '(ret, sigs) := knot_sign_rrset (rrsig r) (cdnskey r) (zone_key_key key)
                               sign_ctx kctx in
         (ret, set_family r F_RRSIG sigs)
    else (ret, r) in
  let '(ret, r) :=
    if knot_is_eok ret && negb (knot_rrset_empty (cds r))
       && knot_zone_sign_use_key key (cds r)
    then let '(ret, sigs) := knot_sign_rrset (rrsig r) (cds r) (zone_key_key key)
                               sign_ctx kctx in
         (ret, set_family r F_RRSIG sigs)
    else (ret, r) in
  (ret, r).

(** A family is signed by [key] when it is not empty and the key is
    eligible for it. *)
Definition signable (key : zone_key_t) (rr : knot_rrset_t) : bool :=
  negb (knot_rrset_empty rr) && knot_zone_sign_use_key key rr.

(** The specification's reading: sign the given RRsets one after the other
    into the RRSIG RRset and stop at the first error. *)
Fixpoint sign_until_error (key : zone_key_t) (sign_ctx : dnssec_sign_ctx_t)
    (kctx : kdnssec_ctx_t) (l : list knot_rrset_t) (sigs : knot_rrset_t)
    : knot_error * knot_rrset_t :=
  match l with
  | [] => (KNOT_EOK, sigs)
  | rr :: l' =>
    let '(ret, sigs') := knot_sign_rrset sigs rr (zone_key_key key) sign_ctx kctx in
    if knot_is_eok ret then sign_until_error key sign_ctx kctx l' sigs'
    else (ret, sigs')
  end.

Definition sign_families (key : zone_key_t) (sign_ctx : dnssec_sign_ctx_t)
    (kctx : kdnssec_ctx_t) (r : key_records_t) : knot_error * key_records_t :=
  let '(ret, sigs) :=
    sign_until_error key sign_ctx kctx
      (filter (signable key) [dnskey r; cdnskey r; cds r]) (rrsig r) in
  (ret, set_family r F_RRSIG sigs).

(** The three guarded steps after the signing context was made, started
    with the code [ret]. *)
Lemma key_records_sign_unfold (key : zone_key_t) (r : key_records_t)
    (kctx : kdnssec_ctx_t) :
  signable key (dnskey r) = true
  \/ fst (dnssec_sign_new (zone_key_key key)) = DNSSEC_EOK ->
  key_records_sign key r kctx
  = sign_families key (snd (dnssec_sign_new (zone_key_key key))) kctx r.
Proof.
  intros Hstart.
  unfold key_records_sign, sign_families, signable in *.
  destruct (dnssec_sign_new (zone_key_key key)) as [dret sign_ctx]. simpl in *.
  destruct r as [dk cdk cd sg]. simpl in *.
  destruct (negb (knot_rrset_empty dk) && knot_zone_sign_use_key key dk) eqn:Edk; simpl.
  - destruct (knot_sign_rrset sg dk _ _ _) as [ret1 s1]. simpl.
    destruct ret1; simpl; try reflexivity.
    destruct (negb (knot_rrset_empty cdk) && knot_zone_sign_use_key key cdk); simpl.
    + destruct (knot_sign_rrset s1 cdk _ _ _) as [ret2 s2]. simpl.
      destruct ret2; simpl; try reflexivity.
      destruct (negb (knot_rrset_empty cd) && knot_zone_sign_use_key key cd); simpl;
        [ | reflexivity ].
      destruct (knot_sign_rrset s2 cd _ _ _) as [ret3 s3].
      destruct ret3; reflexivity.
    + destruct (negb (knot_rrset_empty cd) && knot_zone_sign_use_key key cd); simpl;
        [ | reflexivity ].
      destruct (knot_sign_rrset s1 cd _ _ _) as [ret3 s3].
      destruct ret3; reflexivity.
  - destruct Hstart as [Hs | Hs]; [ discriminate Hs | subst dret ]. simpl.
    destruct (negb (knot_rrset_empty cdk) && knot_zone_sign_use_key key cdk); simpl.
    + destruct (knot_sign_rrset sg cdk _ _ _) as [ret2 s2]. simpl.
      destruct ret2; simpl; try reflexivity.
      destruct (negb (knot_rrset_empty cd) && knot_zone_sign_use_key key cd); simpl;
        [ | reflexivity ].
      destruct (knot_sign_rrset s2 cd _ _ _) as [ret3 s3].
      destruct ret3; reflexivity.
    + destruct (negb (knot_rrset_empty cd) && knot_zone_sign_use_key key cd); simpl;
        [ | reflexivity ].
      destruct (knot_sign_rrset sg cd _ _ _) as [ret3 s3].
      destruct ret3; reflexivity.
Qed.

(** When the signing context is made, exactly the non-empty families the
    key is eligible for are signed, in the order DNSKEY, CDNSKEY, CDS, up
    to the first error. *)
Lemma key_records_sign_ok (key : zone_key_t) (r : key_records_t)
    (kctx : kdnssec_ctx_t) (sign_ctx : dnssec_sign_ctx_t) :
  dnssec_sign_new (zone_key_key key) = (DNSSEC_EOK, sign_ctx) ->
  key_records_sign key r kctx = sign_families key sign_ctx kctx r.
Proof.
  intros Hnew. rewrite key_records_sign_unfold; rewrite Hnew; [ reflexivity | ].
  right. reflexivity.
Qed.

(** When making the signing context fails and the DNSKEY family is not to
    be signed, the error is returned and nothing is signed. *)
Lemma key_records_sign_ctx_error (key : zone_key_t) (r : key_records_t)
    (kctx : kdnssec_ctx_t) (e : dnssec_error) (sign_ctx : dnssec_sign_ctx_t) :
  dnssec_sign_new (zone_key_key key) = (e, sign_ctx) ->
  e <> DNSSEC_EOK ->
  knot_error_from_libdnssec e <> KNOT_EOK ->
  signable key (dnskey r) = false ->
  key_records_sign key r kctx = (knot_error_from_libdnssec e, r).
Proof.
  intros Hnew He Hk Hdk. unfold key_records_sign, signable in *.
  rewrite Hnew, Hdk.
  apply knot_is_eok_false in Hk.
  destruct e; try congruence; simpl; repeat (rewrite Hk; simpl); reflexivity.
Qed.

(** C2 fails on the code: when making the signing context fails while the
    DNSKEY family is not empty and the key is eligible for it, the error is
    not returned and processing does not stop.  The DNSKEY family is handed
    to [knot_sign_rrset] with whatever [sign_ctx] holds, and the call
    behaves as if the context had been made: its outcome is that of signing
    the signable families in order. *)
Theorem key_records_sign_ctx_error_lost (key : zone_key_t) (r : key_records_t)
    (kctx : kdnssec_ctx_t) (e : dnssec_error) (sign_ctx : dnssec_sign_ctx_t) :
  dnssec_sign_new (zone_key_key key) = (e, sign_ctx) ->
  e <> DNSSEC_EOK ->
  knot_rrset_empty (dnskey r) = false ->
  knot_zone_sign_use_key key (dnskey r) = true ->
  key_records_sign key r kctx = sign_families key sign_ctx kctx r /\
  (fst (knot_sign_rrset (rrsig r) (dnskey r) (zone_key_key key) sign_ctx kctx) = KNOT_EOK ->
   signable key (cdnskey r) = false ->
   signable key (cds r) = false ->
   key_records_sign key r kctx
   = (KNOT_EOK,
      set_family r F_RRSIG
        (snd (knot_sign_rrset (rrsig r) (dnskey r) (zone_key_key key) sign_ctx kctx)))).
Proof.
  intros Hnew He Hne Huse.
  assert (Hdk : signable key (dnskey r) = true).
  { unfold signable. rewrite Hne, Huse. reflexivity. }
  assert (Hall : key_records_sign key r kctx = sign_families key sign_ctx kctx r).
  { rewrite key_records_sign_unfold by (left; exact Hdk). rewrite Hnew. reflexivity. }
  split; [ exact Hall | ].
  intros Hok Hcdk Hcds. rewrite Hall. unfold sign_families. simpl.
  rewrite Hdk, Hcdk, Hcds. simpl.
  destruct (knot_sign_rrset (rrsig r) (dnskey r) _ _ _) as [ret sigs].
  simpl in Hok. subst ret. reflexivity.
Qed.

(** X18: signing only ever writes the RRSIG family.  Whatever the key,
    the backend and the outcome, [key_records_sign] returns the DNSKEY,
    CDNSKEY and CDS families as they were.  When the signing context is
    created, the non-empty families the key is eligible for are signed in
    the order DNSKEY, CDNSKEY, CDS up to the first error, and when there is
    no such family the call succeeds and changes nothing. *)
Theorem key_records_sign_frame (key : zone_key_t) (r : key_records_t)
    (kctx : kdnssec_ctx_t) :
  (dnskey (snd (key_records_sign key r kctx)) = dnskey r /\
   cdnskey (snd (key_records_sign key r kctx)) = cdnskey r /\
   cds (snd (key_records_sign key r kctx)) = cds r) /\
  (fst (dnssec_sign_new (zone_key_key key)) = DNSSEC_EOK ->
   key_records_sign key r kctx
   = sign_families key (snd (dnssec_sign_new (zone_key_key key))) kctx r /\
   (signable key (dnskey r) = false -> signable key (cdnskey r) = false ->
    signable key (cds r) = false ->
    key_records_sign key r kctx = (KNOT_EOK, r))).
Proof.
  split.
  - unfold key_records_sign.
    destruct (dnssec_sign_new (zone_key_key key)) as [dret sign_ctx].
    destruct r as [dk cdk cd sg]. cbn [dnskey cdnskey cds rrsig].
    repeat (match goal with
            | |- context [ knot_sign_rrset ?a ?b ?c ?d ?e ] =>
                destruct (knot_sign_rrset a b c d e) as [? ?]
            | |- context [ if ?c then _ else _ ] => destruct c
            end; cbn [set_family dnskey cdnskey cds rrsig fst snd]);
      repeat split.
  - intros Hnew.
    assert (Hall : key_records_sign key r kctx
                   = sign_families key (snd (dnssec_sign_new (zone_key_key key))) kctx r).
    { apply key_records_sign_unfold. right. exact Hnew. }
    split; [ exact Hall | ].
    intros H1 H2 H3. rewrite Hall. unfold sign_families. cbn [filter].
    rewrite H1, H2, H3. cbn [sign_until_error]. rewrite set_get_family. reflexivity.
Qed.

End Sign.

(** *** key_records_verify *)

Section Verify.

(** Collaborators of knot/dnssec: loading the KASP keys from the DNSKEY
    RDATA writes the KASP zone and the key-tag conflict flag;
    [zone_validation_ctx] answers NULL ([None]) when out of memory;
    [knot_validate_rrsigs covered rrsigs sign_ctx skip_crypto until]
    returns its code, the signing context and [*valid_until] after the
    call; [knot_time_lt] is the time comparison of contrib/time.h. *)
Variable zone_sign_ctx_t : Type.
Variable kasp_zone_keys_from_rr :
  knot_kasp_zone_t -> knot_rdataset_t -> bool -> bool ->
  knot_error * knot_kasp_zone_t * bool.
Variable zone_validation_ctx : kdnssec_ctx_t -> option zone_sign_ctx_t.
Variable knot_validate_rrsigs :
  knot_rrset_t -> knot_rrset_t -> zone_sign_ctx_t -> bool -> Z ->
  knot_error * zone_sign_ctx_t * Z.
Variable knot_time_lt : Z -> Z -> bool.

(** [key_records_verify]: the code and the context after the call. *)
Definition key_records_verify (r : key_records_t) (kctx : kdnssec_ctx_t)
    (timestamp min_valid : Z) : knot_error * kdnssec_ctx_t :=
  let kctx := set_now kctx timestamp in
  let '(ret, z, conflict) :=
    kasp_zone_keys_from_rr (zone kctx) (rrs (dnskey r)) false (keytag_conflict kctx) in
  let kctx := set_zone_keys kctx z conflict in
  if negb (knot_is_eok ret) then (ret, kctx)
  else
    match zone_validation_ctx kctx with
    | None => (KNOT_ENOMEM, kctx)
    | Some sign_ctx =>
      let until := 0 in
      let '(ret, sign_ctx, until) :=
        knot_validate_rrsigs (dnskey r) (rrsig r) sign_ctx false until in
      let '(ret, sign_ctx, until) :=
        if knot_is_eok ret && negb (knot_rrset_empty (cdnskey r))
        then knot_validate_rrsigs (cdnskey r) (rrsig r) sign_ctx false until
        else (ret, sign_ctx, until) in
      let '(ret, sign_ctx, until) :=
        if knot_is_eok ret && negb (knot_rrset_empty (cds r))
        then knot_validate_rrsigs (cds r) (rrsig r) sign_ctx false until
        else (ret, sign_ctx, until) in
      let ret := if knot_is_eok ret && knot_time_lt until min_valid
                 then KNOT_ESOON_EXPIRE else ret in
      (ret, kctx)
    end.

(** The families whose RRSIGs are checked: DNSKEY always, CDNSKEY and CDS
    when present. *)
Definition validated_families (r : key_records_t) : list knot_rrset_t :=
  dnskey r :: filter (fun rr => negb (knot_rrset_empty rr)) [cdnskey r; cds r].

(** The specification's reading: validate the families in turn against
    the RRSIG RRset, each collecting into [until], up to the first
    failure. *)
Fixpoint validate_until_error (l : list knot_rrset_t) (rrsigs : knot_rrset_t)
    (sign_ctx : zone_sign_ctx_t) (until : Z) : knot_error * zone_sign_ctx_t * Z :=
  match l with
  | [] => (KNOT_EOK, sign_ctx, until)
  | rr :: l' =>
    let '(ret, sign_ctx', until') := knot_validate_rrsigs rr rrsigs sign_ctx false until in
    if knot_is_eok ret then validate_until_error l' rrsigs sign_ctx' until'
    else (ret, sign_ctx', until')
  end.

(** The earliest expiry collected over the validated families, starting
    from the initial [until = 0]. *)
Definition collected_until (r : key_records_t) (sign_ctx : zone_sign_ctx_t) : Z :=
  snd (validate_until_error (validated_families r) (rrsig r) sign_ctx 0).

Definition validations_code (r : key_records_t) (sign_ctx : zone_sign_ctx_t)
    : knot_error :=
  fst (fst (validate_until_error (validated_families r) (rrsig r) sign_ctx 0)).

(** Once the keys are loaded and the validation context exists, the code
    of [key_records_verify] is decided by the validations and the final
    comparison. *)
Lemma key_records_verify_validated (r : key_records_t) (kctx : kdnssec_ctx_t)
    (timestamp min_valid : Z) (z : knot_kasp_zone_t) (conflict : bool)
    (sign_ctx : zone_sign_ctx_t) :
  kasp_zone_keys_from_rr (zone kctx) (rrs (dnskey r)) false (keytag_conflict kctx)
  = (KNOT_EOK, z, conflict) ->
  zone_validation_ctx (set_zone_keys (set_now kctx timestamp) z conflict)
  = Some sign_ctx ->
  fst (key_records_verify r kctx timestamp min_valid)
  = if knot_is_eok (validations_code r sign_ctx)
       && knot_time_lt (collected_until r sign_ctx) min_valid
    then KNOT_ESOON_EXPIRE
    else validations_code r sign_ctx.
Proof.
  intros Hkeys Hctx.
  unfold key_records_verify, validations_code, collected_until, validated_families.
  simpl zone. simpl keytag_conflict. rewrite Hkeys. simpl negb. cbv iota.
  rewrite Hctx. simpl.
  destruct (knot_validate_rrsigs (dnskey r) (rrsig r) sign_ctx false 0)
    as [[ret1 sc1] u1].
  destruct ret1; simpl; try reflexivity.
  destruct (knot_rrset_empty (cdnskey r)); simpl.
  - destruct (knot_rrset_empty (cds r)); simpl; [ reflexivity | ].
    destruct (knot_validate_rrsigs (cds r) (rrsig r) sc1 false u1) as [[ret3 sc3] u3].
    destruct ret3; reflexivity.
  - destruct (knot_validate_rrsigs (cdnskey r) (rrsig r) sc1 false u1) as [[ret2 sc2] u2].
    destruct ret2; simpl; try reflexivity.
    destruct (knot_rrset_empty (cds r)); simpl; [ reflexivity | ].
    destruct (knot_validate_rrsigs (cds r) (rrsig r) sc2 false u2) as [[ret3 sc3] u3].
    destruct ret3; reflexivity.
Qed.

(** C3: when the keys are loaded, the validation context exists and the
    RRSIG validation of every checked family (DNSKEY, and CDNSKEY and CDS
    when present) succeeds, [key_records_verify] returns KNOT_ESOON_EXPIRE
    exactly when the earliest expiry collected over these families is
    before [min_valid], and KNOT_EOK exactly when it is not. *)
Theorem verify_soon_expire (r : key_records_t) (kctx : kdnssec_ctx_t)
    (timestamp min_valid : Z) (z : knot_kasp_zone_t) (conflict : bool)
    (sign_ctx : zone_sign_ctx_t) :
  kasp_zone_keys_from_rr (zone kctx) (rrs (dnskey r)) false (keytag_conflict kctx)
  = (KNOT_EOK, z, conflict) ->
  zone_validation_ctx (set_zone_keys (set_now kctx timestamp) z conflict)
  = Some sign_ctx ->
  validations_code r sign_ctx = KNOT_EOK ->
  let ret := fst (key_records_verify r kctx timestamp min_valid) in
  (ret = KNOT_ESOON_EXPIRE <->
     knot_time_lt (collected_until r sign_ctx) min_valid = true) /\
  (ret = KNOT_EOK <->
     knot_time_lt (collected_until r sign_ctx) min_valid = false).
Proof.
  intros Hkeys Hctx Hval ret. subst ret.
  rewrite (key_records_verify_validated r kctx timestamp min_valid z conflict sign_ctx
             Hkeys Hctx), Hval.
  simpl. destruct (knot_time_lt (collected_until r sign_ctx) min_valid);
    split; split; congruence.
Qed.

(** C10: whatever happens afterwards, the context returned by
    [key_records_verify] has its current time set to the supplied
    timestamp: on a key-loading error, when no validation context can be
    made, on a validation failure, on KNOT_ESOON_EXPIRE and on success. *)
Theorem verify_sets_now (r : key_records_t) (kctx : kdnssec_ctx_t)
    (timestamp min_valid : Z) :
  now (snd (key_records_verify r kctx timestamp min_valid)) = timestamp.
Proof.
  unfold key_records_verify.
  destruct (kasp_zone_keys_from_rr _ _ _ _) as [[ret z] conflict].
  destruct (negb (knot_is_eok ret)); [ reflexivity | ].
  destruct (zone_validation_ctx _) as [sign_ctx | ]; [ | reflexivity ].
  destruct (knot_validate_rrsigs (dnskey r) _ _ _ _) as [[ret1 sc1] u1].
  destruct (if knot_is_eok ret1 && _ then _ else _) as [[ret2 sc2] u2].
  destruct (if knot_is_eok ret2 && _ then _ else _) as [[ret3 sc3] u3].
  reflexivity.
Qed.

(** The other fields of the context that the call itself writes are the
    KASP zone and the conflict flag, as left by the key loading. *)
Lemma verify_context (r : key_records_t) (kctx : kdnssec_ctx_t)
    (timestamp min_valid : Z) :
  snd (key_records_verify r kctx timestamp min_valid)
  = set_zone_keys (set_now kctx timestamp)
      (snd (fst (kasp_zone_keys_from_rr (zone kctx) (rrs (dnskey r)) false
                   (keytag_conflict kctx))))
      (snd (kasp_zone_keys_from_rr (zone kctx) (rrs (dnskey r)) false
              (keytag_conflict kctx))).
Proof.
  unfold key_records_verify. simpl zone. simpl keytag_conflict.
  destruct (kasp_zone_keys_from_rr _ _ _ _) as [[ret z] conflict]. simpl snd. simpl fst.
  destruct (negb (knot_is_eok ret)); [ reflexivity | ].
  destruct (zone_validation_ctx _) as [sign_ctx | ]; [ | reflexivity ].
  destruct (knot_validate_rrsigs (dnskey r) _ _ _ _) as [[ret1 sc1] u1].
  destruct (if knot_is_eok ret1 && _ then _ else _) as [[ret2 sc2] u2].
  destruct (if knot_is_eok ret2 && _ then _ else _) as [[ret3 sc3] u3].
  reflexivity.
Qed.

(** X19: errors of [key_records_verify] in the order they can arise.  A
    failure to load the keys is returned as it is and nothing is
    validated; a missing validation context gives KNOT_ENOMEM; and when a
    validation fails, its error is returned whatever the collected expiry
    is: KNOT_ESOON_EXPIRE never hides a validation error. *)
Theorem verify_errors (r : key_records_t) (kctx : kdnssec_ctx_t)
    (timestamp min_valid : Z) (ret : knot_error) (z : knot_kasp_zone_t)
    (conflict : bool) :
  kasp_zone_keys_from_rr (zone kctx) (rrs (dnskey r)) false (keytag_conflict kctx)
  = (ret, z, conflict) ->
  (ret <> KNOT_EOK -> fst (key_records_verify r kctx timestamp min_valid) = ret) /\
  (ret = KNOT_EOK ->
   zone_validation_ctx (set_zone_keys (set_now kctx timestamp) z conflict) = None ->
   fst (key_records_verify r kctx timestamp min_valid) = KNOT_ENOMEM) /\
  (ret = KNOT_EOK ->
   forall sign_ctx : zone_sign_ctx_t,
     zone_validation_ctx (set_zone_keys (set_now kctx timestamp) z conflict)
     = Some sign_ctx ->
     validations_code r sign_ctx <> KNOT_EOK ->
     fst (key_records_verify r kctx timestamp min_valid) = validations_code r sign_ctx).
Proof.
  intros Hkeys. split; [ | split ].
  - intros Hret. unfold key_records_verify. simpl zone. simpl keytag_conflict.
    rewrite Hkeys. apply knot_is_eok_false in Hret. rewrite Hret. reflexivity.
  - intros -> Hctx. unfold key_records_verify. simpl zone. simpl keytag_conflict.
    rewrite Hkeys. simpl negb. cbv iota. rewrite Hctx. reflexivity.
  - intros -> sign_ctx Hctx Hval.
    rewrite (key_records_verify_validated r kctx timestamp min_valid z conflict sign_ctx
               Hkeys Hctx).
    apply knot_is_eok_false in Hval. rewrite Hval. reflexivity.
Qed.

End Verify.

End Dnssec.

Arguments now {knot_kasp_zone_t} _.
Arguments zone {knot_kasp_zone_t} _.
Arguments dnskey_ttl {knot_kasp_zone_t} _.
Arguments keytag_conflict {knot_kasp_zone_t} _.

(** *** A toy signing backend for running the statements *)

(** The KASP zone is the list of loaded public keys; a zone key is a KSK
    flag; a signing context is a pointer that may be NULL. *)
Definition toy_zone : Type := knot_rdataset_t.

Definition toy_kctx : kdnssec_ctx_t toy_zone :=
  {| now := 100; zone := []; dnskey_ttl := 3600; keytag_conflict := false |}.

(** No memory for a signing context. *)
Definition toy_sign_new_nomem (k : bool) : dnssec_error * option bool :=
  (DNSSEC_ENOMEM, None).

Definition toy_error_from_libdnssec (e : dnssec_error) : knot_error :=
  match e with
  | DNSSEC_EOK => KNOT_EOK
  | DNSSEC_ENOMEM => KNOT_ENOMEM
  | DNSSEC_EINVAL => KNOT_EINVAL
  | DNSSEC_INVALID_KEY_ALGORITHM => KNOT_INVALID_KEY_ALGORITHM
  | DNSSEC_SIGN_INIT_ERROR | DNSSEC_SIGN_ERROR => KNOT_DNSSEC_ESIGN
  | DNSSEC_ERROR => KNOT_ERROR
  end.

(** A KSK signs the key families. *)
Definition toy_use_key (ksk : bool) (covered : knot_rrset_t) : bool := ksk.

(** The signature of an RRset is the concatenation of its RDATA; the
    signer never looks at the signing context. *)
Definition toy_sign_rrset (rrsigs covered : knot_rrset_t) (k : bool)
    (sign_ctx : option bool) (kctx : kdnssec_ctx_t toy_zone)
    : knot_error * knot_rrset_t :=
  (KNOT_EOK, set_rrs rrsigs (rrs rrsigs ++ [concat (rrs covered)])).

(** The failing input of C2: no signing context could be made, yet the
    call signs DNSKEY and CDS and reports success. *)
Lemma key_records_sign_ctx_error_lost_witness :
  fst (toy_sign_new_nomem true) = DNSSEC_ENOMEM /\
  key_records_sign toy_zone bool bool (option bool) (fun k => k) toy_sign_new_nomem
    toy_error_from_libdnssec toy_use_key toy_sign_rrset true example_populated toy_kctx
  = (KNOT_EOK,
     set_family example_populated F_RRSIG
       (set_rrs (rrsig example_populated)
          [ ["000"; "048"]; ["001"; "001"; "003"; "015"];
            ["000"; "042"; "015"; "002"] ]%byte)).
Proof.
  split; [ reflexivity | ].
  rewrite (proj1 (key_records_sign_ctx_error_lost toy_zone bool bool (option bool)
                    (fun k => k) toy_sign_new_nomem toy_error_from_libdnssec
                    toy_use_key toy_sign_rrset true example_populated toy_kctx
                    DNSSEC_ENOMEM None eq_refl
                    ltac:(discriminate) eq_refl eq_refl)).
  reflexivity.
Defined.

(** Key loading keeps the DNSKEY RDATA as the zone's keys; the validation
    context is the validation time; a family validates when some RRSIG is
    present, and its signatures expire at 1000 plus its RR type; an unset
    [until] is 0. *)
Definition toy_keys_from_rr (z : toy_zone) (dnskeys : knot_rdataset_t)
    (policy conflict : bool) : knot_error * toy_zone * bool :=
  (KNOT_EOK, dnskeys, false).

Definition toy_validation_ctx (kctx : kdnssec_ctx_t toy_zone) : option Z :=
  Some (now kctx).

Definition toy_validate_rrsigs (covered rrsigs : knot_rrset_t) (sign_ctx : Z)
    (skip_crypto : bool) (until : Z) : knot_error * Z * Z :=
  if knot_rrset_empty rrsigs then (KNOT_DNSSEC_ENOSIG, sign_ctx, until)
  else (KNOT_EOK, sign_ctx,
        if until =? 0 then 1000 + type covered
        else Z.min until (1000 + type covered)).

Definition toy_time_lt (a b : Z) : bool := a <? b.

(** DNSKEY (expiry 1048) and CDS (expiry 1059) validate at time 500; the
    earliest expiry 1048 is before 2000, so the signatures expire too soon,
    and it is not before 1048, so that request succeeds. *)
Lemma verify_soon_expire_witness :
  fst (key_records_verify toy_zone Z toy_keys_from_rr toy_validation_ctx
         toy_validate_rrsigs toy_time_lt example_populated toy_kctx 500 2000)
  = KNOT_ESOON_EXPIRE /\
  fst (key_records_verify toy_zone Z toy_keys_from_rr toy_validation_ctx
         toy_validate_rrsigs toy_time_lt example_populated toy_kctx 500 1048)
  = KNOT_EOK.
Proof.
  split.
  - apply (proj1 (verify_soon_expire toy_zone Z toy_keys_from_rr toy_validation_ctx
                    toy_validate_rrsigs toy_time_lt example_populated toy_kctx
                    500 2000 (rrs (dnskey example_populated)) false 500
                    eq_refl eq_refl eq_refl)).
    reflexivity.
  - apply (proj2 (verify_soon_expire toy_zone Z toy_keys_from_rr toy_validation_ctx
                    toy_validate_rrsigs toy_time_lt example_populated toy_kctx
                    500 1048 (rrs (dnskey example_populated)) false 500
                    eq_refl eq_refl eq_refl)).
    reflexivity.
Defined.

(** Verifying at time 500 leaves 500 as the context's current time. *)
Lemma verify_sets_now_witness :
  now
    (snd (key_records_verify toy_zone Z toy_keys_from_rr toy_validation_ctx
            toy_validate_rrsigs toy_time_lt example_populated toy_kctx 500 2000))
  = 500.
Proof.
  apply (verify_sets_now toy_zone Z toy_keys_from_rr toy_validation_ctx
           toy_validate_rrsigs toy_time_lt example_populated toy_kctx 500 2000).
Defined.

(** A signing context is made, and a ZSK (not eligible for the key
    families) signs nothing. *)
Definition toy_sign_new (k : bool) : dnssec_error * option bool :=
  (DNSSEC_EOK, Some k).

Lemma key_records_sign_frame_witness :
  key_records_sign toy_zone bool bool (option bool) (fun k => k) toy_sign_new
    toy_error_from_libdnssec toy_use_key toy_sign_rrset false example_populated toy_kctx
  = (KNOT_EOK, example_populated).
Proof.
  apply (proj2 (proj2 (key_records_sign_frame toy_zone bool bool (option bool)
                         (fun k => k) toy_sign_new toy_error_from_libdnssec
                         toy_use_key toy_sign_rrset false example_populated toy_kctx)
                  eq_refl));
    reflexivity.
Defined.

(** Without any RRSIG the DNSKEY validation fails with KNOT_DNSSEC_ENOSIG,
    which is what the call returns although nothing would be valid long
    enough. *)
Lemma verify_errors_witness :
  fst (key_records_verify toy_zone Z toy_keys_from_rr toy_validation_ctx
         toy_validate_rrsigs toy_time_lt
         (set_family example_populated F_RRSIG (rrsig example_records)) toy_kctx 500 2000)
  = KNOT_DNSSEC_ENOSIG.
Proof.
  apply (proj2 (proj2 (verify_errors toy_zone Z toy_keys_from_rr toy_validation_ctx
                         toy_validate_rrsigs toy_time_lt
                         (set_family example_populated F_RRSIG (rrsig example_records))
                         toy_kctx 500 2000 KNOT_EOK (rrs (dnskey example_populated))
                         false eq_refl))
           eq_refl 500 eq_refl).
  discriminate.
Defined.

(** *** key_records_subtract and key_records_intersect *)

Section Subtract.

(** libknot's [knot_rdataset_subtract] and [knot_rdataset_intersect2]
    (with the NULL memory context): the code and the RDATA set left in
    [from]. *)
Variable knot_rdataset_subtract :
  knot_rdataset_t -> knot_rdataset_t -> knot_error * knot_rdataset_t.
Variable knot_rdataset_intersect2 :
  knot_rdataset_t -> knot_rdataset_t -> knot_error * knot_rdataset_t.

(** [subtract_one]: the code and the RRset [from] after the call. *)
Definition subtract_one (from what : knot_rrset_t)
    (fcn : knot_rdataset_t -> knot_rdataset_t -> knot_error * knot_rdataset_t)
    (ret : knot_error) : knot_error * knot_rrset_t :=
  if knot_is_eok ret && negb (knot_rrset_empty from) then
    let '(ret, rs) := fcn (rrs from) (rrs what) in (ret, set_rrs from rs)
  else (ret, from).

(** [key_records_subtract] *)
Definition key_records_subtract (r against : key_records_t)
    : knot_error * key_records_t :=
  let ret := KNOT_EOK in
  let '(ret, dk) :=
    subtract_one (dnskey r) (dnskey against) knot_rdataset_subtract ret in
  let '(ret, cdk) :=
    subtract_one (cdnskey r) (cdnskey against) knot_rdataset_subtract ret in
  let '(ret, cd) :=
    subtract_one (cds r) (cds against) knot_rdataset_subtract ret in
  (ret, {| dnskey := dk; cdnskey := cdk; cds := cd; rrsig := rrsig r |}).

(** [key_records_intersect] *)
Definition key_records_intersect (r against : key_records_t)
    : knot_error * key_records_t :=
  let ret := KNOT_EOK in
  let '(ret, dk) :=
    subtract_one (dnskey r) (dnskey against) knot_rdataset_intersect2 ret in
  let '(ret, cdk) :=
    subtract_one (cdnskey r) (cdnskey against) knot_rdataset_intersect2 ret in
  let '(ret, cd) :=
    subtract_one (cds r) (cds against) knot_rdataset_intersect2 ret in
  (ret, {| dnskey := dk; cdnskey := cdk; cds := cd; rrsig := rrsig r |}).

(** What both operations guarantee about [op r against], where [fcn] is
    the RDATA-set operation they apply: the RRSIG family is kept; every
    family keeps its owner, type, class and TTL; a family that was empty
    is kept as it is ([fcn] is not applied to it); and when [fcn] fails on
    a non-empty DNSKEY family its error is returned and the CDNSKEY and CDS
    families are kept. *)
Definition set_operation_frame
    (op : key_records_t -> key_records_t -> knot_error * key_records_t)
    (fcn : knot_rdataset_t -> knot_rdataset_t -> knot_error * knot_rdataset_t) : Prop :=
  forall r against : key_records_t,
    rrsig (snd (op r against)) = rrsig r /\
    (forall f,
       owner (get_family (snd (op r against)) f) = owner (get_family r f) /\
       type (get_family (snd (op r against)) f) = type (get_family r f) /\
       rclass (get_family (snd (op r against)) f) = rclass (get_family r f) /\
       ttl (get_family (snd (op r against)) f) = ttl (get_family r f)) /\
    (forall f, knot_rrset_empty (get_family r f) = true ->
       get_family (snd (op r against)) f = get_family r f) /\
    (knot_rrset_empty (dnskey r) = false ->
     fst (fcn (rrs (dnskey r)) (rrs (dnskey against))) <> KNOT_EOK ->
     fst (op r against) = fst (fcn (rrs (dnskey r)) (rrs (dnskey against))) /\
     cdnskey (snd (op r against)) = cdnskey r /\
     cds (snd (op r against)) = cds r).

(** The three guarded calls, for any RDATA-set operation. *)
Definition apply_to_families
    (fcn : knot_rdataset_t -> knot_rdataset_t -> knot_error * knot_rdataset_t)
    (r against : key_records_t) : knot_error * key_records_t :=
  let '(ret, dk) := subtract_one (dnskey r) (dnskey against) fcn KNOT_EOK in
  let '(ret, cdk) := subtract_one (cdnskey r) (cdnskey against) fcn ret in
  let '(ret, cd) := subtract_one (cds r) (cds against) fcn ret in
  (ret, {| dnskey := dk; cdnskey := cdk; cds := cd; rrsig := rrsig r |}).

Lemma subtract_one_fields (from what : knot_rrset_t)
    (fcn : knot_rdataset_t -> knot_rdataset_t -> knot_error * knot_rdataset_t)
    (ret : knot_error) :
  owner (snd (subtract_one from what fcn ret)) = owner from /\
  type (snd (subtract_one from what fcn ret)) = type from /\
  rclass (snd (subtract_one from what fcn ret)) = rclass from /\
  ttl (snd (subtract_one from what fcn ret)) = ttl from /\
  (knot_rrset_empty from = true \/ ret <> KNOT_EOK ->
   subtract_one from what fcn ret = (ret, from)).
Proof.
  unfold subtract_one.
  destruct (knot_is_eok ret && negb (knot_rrset_empty from)) eqn:E.
  - destruct (fcn (rrs from) (rrs what)) as [ret' rs]. simpl.
    repeat split. intros [He | Hr].
    + rewrite He, andb_false_r in E. discriminate E.
    + apply knot_is_eok_false in Hr. rewrite Hr in E. discriminate E.
  - repeat split.
Qed.

Lemma apply_to_families_frame
    (fcn : knot_rdataset_t -> knot_rdataset_t -> knot_error * knot_rdataset_t) :
  set_operation_frame (apply_to_families fcn) fcn.
Proof.
  intros r against. unfold apply_to_families.
  pose proof (subtract_one_fields (dnskey r) (dnskey against) fcn KNOT_EOK) as H1.
  destruct (subtract_one (dnskey r) (dnskey against) fcn KNOT_EOK) as [ret1 dk] eqn:E1.
  pose proof (subtract_one_fields (cdnskey r) (cdnskey against) fcn ret1) as H2.
  destruct (subtract_one (cdnskey r) (cdnskey against) fcn ret1) as [ret2 cdk] eqn:E2.
  pose proof (subtract_one_fields (cds r) (cds against) fcn ret2) as H3.
  destruct (subtract_one (cds r) (cds against) fcn ret2) as [ret3 cd] eqn:E3.
  cbn [fst snd] in *.
  destruct H1 as (O1 & T1 & C1 & L1 & K1).
  destruct H2 as (O2 & T2 & C2 & L2 & K2).
  destruct H3 as (O3 & T3 & C3 & L3 & K3).
  split; [ reflexivity | split; [ | split ] ].
  - intros f. destruct f; cbn [get_family dnskey cdnskey cds rrsig]; repeat split;
      assumption.
  - intros f Hf. destruct f; cbn [get_family dnskey cdnskey cds rrsig] in *.
    + specialize (K1 (or_introl Hf)). congruence.
    + specialize (K2 (or_introl Hf)). congruence.
    + specialize (K3 (or_introl Hf)). congruence.
    + reflexivity.
  - intros Hne Hfail.
    assert (Hret1 : ret1 = fst (fcn (rrs (dnskey r)) (rrs (dnskey against)))).
    { unfold subtract_one in E1. rewrite Hne in E1. simpl in E1.
      destruct (fcn (rrs (dnskey r)) (rrs (dnskey against))) as [e rs].
      inversion E1. reflexivity. }
    rewrite <- Hret1 in *.
    specialize (K2 (or_intror Hfail)). inversion K2; subst ret2 cdk.
    specialize (K3 (or_intror Hfail)). inversion K3; subst ret3 cd.
    repeat split.
Qed.

(** X20: subtracting and intersecting key records only ever change the
    RDATA of non-empty DNSKEY, CDNSKEY and CDS families.  For both
    operations the RRSIG family is kept, every family keeps its owner,
    type, class and TTL, an empty family stays as it is, and a failure on
    the DNSKEY family is returned at once, with CDNSKEY and CDS kept. *)
Theorem subtract_intersect_frame :
  set_operation_frame key_records_subtract knot_rdataset_subtract /\
  set_operation_frame key_records_intersect knot_rdataset_intersect2.
Proof.
  split.
  - exact (apply_to_families_frame knot_rdataset_subtract).
  - exact (apply_to_families_frame knot_rdataset_intersect2).
Qed.

Section Inert.

Variable changeset_t : Type.
Variable changeset_flag_t : Type.
Variable changeset_add_addition :
  changeset_t -> knot_rrset_t -> changeset_flag_t -> knot_error * changeset_t.
Variable changeset_add_removal :
  changeset_t -> knot_rrset_t -> changeset_flag_t -> knot_error * changeset_t.
Variable knot_kasp_zone_t : Type.
Variable kasp_zone_dname : knot_kasp_zone_t -> knot_dname_t.

(** X21: key records without RDATA are inert.  Freshly initialised
    records ([key_records_init]) and records whose RDATA sets were cleared
    ([key_records_clear_rdatasets]) put nothing into a changeset, and
    subtracting or intersecting leaves them as they are; each of the three
    calls succeeds.  Clearing twice is the same as clearing once. *)
Theorem empty_records_inert (ctx : kdnssec_ctx_t knot_kasp_zone_t)
    (r0 r against : key_records_t) (ch : changeset_t) (rem : bool)
    (chfl : changeset_flag_t) :
  r = key_records_init knot_kasp_zone_t kasp_zone_dname ctx
  \/ r = key_records_clear_rdatasets r0 ->
  key_records_to_changeset changeset_t changeset_flag_t changeset_add_addition
    changeset_add_removal r ch rem chfl = (KNOT_EOK, ch) /\
  key_records_subtract r against = (KNOT_EOK, r) /\
  key_records_intersect r against = (KNOT_EOK, r) /\
  key_records_clear_rdatasets (key_records_clear_rdatasets r0)
  = key_records_clear_rdatasets r0.
Proof.
  intros [-> | ->]; repeat split.
Qed.

End Inert.

End Subtract.

(** Set difference and intersection of RDATA sets, for running the
    statements. *)
Definition rdata_eqb (a b : knot_rdata_t) : bool :=
  if list_eq_dec Byte.byte_eq_dec a b then true else false.

Definition toy_subtract (from what : knot_rdataset_t) : knot_error * knot_rdataset_t :=
  (KNOT_EOK, filter (fun rd => negb (existsb (rdata_eqb rd) what)) from).

Definition toy_intersect (from what : knot_rdataset_t) : knot_error * knot_rdataset_t :=
  (KNOT_EOK, filter (fun rd => existsb (rdata_eqb rd) what) from).

(** Subtracting the populated example from itself empties DNSKEY and CDS
    and keeps the RRSIG family. *)
Lemma subtract_intersect_frame_witness :
  rrsig (snd (key_records_subtract toy_subtract example_populated example_populated))
  = rrsig example_populated.
Proof.
  apply (proj1 (proj1 (subtract_intersect_frame toy_subtract toy_intersect)
                  example_populated example_populated)).
Defined.

(** Freshly initialised records add nothing to the logging changeset. *)
Lemma empty_records_inert_witness :
  key_records_to_changeset log_changeset Z (log_add false) (log_add true)
    (key_records_init toy_zone (fun _ => example_apex) toy_kctx) [] false 0
  = (KNOT_EOK, []).
Proof.
  apply (proj1 (empty_records_inert toy_subtract toy_intersect log_changeset Z
                  (log_add false) (log_add true) toy_zone (fun _ => example_apex)
                  toy_kctx example_populated
                  (key_records_init toy_zone (fun _ => example_apex) toy_kctx)
                  example_populated [] false 0 (or_introl eq_refl))).
Defined.

(** *** key_records_last_timestamp *)

Section LastTimestamp.

(** The KASP database handle [ctx->kasp_db] and the zone name
    [ctx->zone->dname] are what the loader is given.
    [kasp_db_load_offline_records db zone from] returns its code, the value
    of [from] after the call (it is passed by address) and [next]; the
    record set it loads is cleared at once.  [knot_time] is the clock
    reading taken when no record was found. *)
Variable knot_kasp_zone_t : Type.
Variable kasp_zone_dname : knot_kasp_zone_t -> knot_dname_t.
Variable knot_lmdb_db_t : Type.
Variable ctx_kasp_db : kdnssec_ctx_t knot_kasp_zone_t -> knot_lmdb_db_t.
Variable kasp_db_load_offline_records :
  knot_lmdb_db_t -> knot_dname_t -> Z -> knot_error * Z * Z.
Variable knot_time : Z.

(** How the [while (true)] loop is left: by a [return ret], or by a
    [break] with the current [from]. *)
Inductive loop_exit : Type :=
  | Returned (ret : knot_error)
  | Broke (from : Z).

(** The loop, for at most [fuel] rounds; [None] when the rounds are used
    up. *)
Fixpoint last_timestamp_loop (fuel : nat) (ctx : kdnssec_ctx_t knot_kasp_zone_t)
    (from : Z) : option loop_exit :=
  match fuel with
  | O => None
  | S fuel' =>
    let '(ret, from, next) :=
      kasp_db_load_offline_records (ctx_kasp_db ctx) (kasp_zone_dname (zone ctx)) from in
    match ret with
    | KNOT_ENOENT => Some (Broke from)
    | KNOT_EOK =>
      if next =? 0 then Some (Broke from)
      else last_timestamp_loop fuel' ctx next
    | _ => Some (Returned ret)
    end
  end.

(** [key_records_last_timestamp]: the code and the cell [*last] after the
    call. *)
Definition key_records_last_timestamp (fuel : nat)
    (ctx : kdnssec_ctx_t knot_kasp_zone_t) (last : Z) : option (knot_error * Z) :=
  match last_timestamp_loop fuel ctx 0 with
  | None => None
  | Some (Returned ret) => Some (ret, last)
  | Some (Broke from) =>
    let from := if from =? 0 then knot_time else from in
    Some (KNOT_EOK, from)
  end.

(** The records found by following [next] from [from]: after [n] loads the
    walk ends with [out]. *)
Inductive walk (ctx : kdnssec_ctx_t knot_kasp_zone_t) : Z -> nat -> loop_exit -> Prop :=
  | walk_enoent (from from' next : Z) :
      kasp_db_load_offline_records (ctx_kasp_db ctx) (kasp_zone_dname (zone ctx)) from
      = (KNOT_ENOENT, from', next) ->
      walk ctx from 1 (Broke from')
  | walk_last (from from' : Z) :
      kasp_db_load_offline_records (ctx_kasp_db ctx) (kasp_zone_dname (zone ctx)) from
      = (KNOT_EOK, from', 0) ->
      walk ctx from 1 (Broke from')
  | walk_error (from from' next : Z) (ret : knot_error) :
      kasp_db_load_offline_records (ctx_kasp_db ctx) (kasp_zone_dname (zone ctx)) from
      = (ret, from', next) ->
      ret <> KNOT_EOK -> ret <> KNOT_ENOENT ->
      walk ctx from 1 (Returned ret)
  | walk_next (from from' next : Z) (n : nat) (out : loop_exit) :
      kasp_db_load_offline_records (ctx_kasp_db ctx) (kasp_zone_dname (zone ctx)) from
      = (KNOT_EOK, from', next) ->
      next <> 0 ->
      walk ctx next n out ->
      walk ctx from (S n) out.

Lemma last_timestamp_loop_walk (ctx : kdnssec_ctx_t knot_kasp_zone_t)
    (from : Z) (n : nat) (out : loop_exit) :
  walk ctx from n out ->
  forall fuel : nat, (n <= fuel)%nat -> last_timestamp_loop fuel ctx from = Some out.
Proof.
  induction 1 as [ from from' next Hload | from from' Hload
                 | from from' next ret Hload Hok Hent
                 | from from' next n out Hload Hnext Hwalk IH ];
    intros fuel Hfuel; (destruct fuel as [ | fuel ]; [ lia | ]);
    cbn [last_timestamp_loop]; rewrite Hload.
  - reflexivity.
  - reflexivity.
  - destruct ret; try reflexivity; contradiction.
  - destruct (Z.eqb_spec next 0); [ contradiction | ].
    apply IH. lia.
Qed.

Lemma last_timestamp_loop_exit (ctx : kdnssec_ctx_t knot_kasp_zone_t) (fuel : nat) :
  forall (from : Z) (ret : knot_error),
    last_timestamp_loop fuel ctx from = Some (Returned ret) ->
    ret <> KNOT_EOK /\ ret <> KNOT_ENOENT.
Proof.
  induction fuel as [ | fuel IH ]; intros from ret; cbn [last_timestamp_loop].
  - discriminate.
  - destruct (kasp_db_load_offline_records _ _ from) as [[ret' from'] next].
    destruct ret'; try (intros H; inversion H; split; discriminate).
    destruct (next =? 0); [ discriminate | apply IH ].
Qed.

(** X22: the last offline-records timestamp.  Whenever the call returns,
    it never returns KNOT_ENOENT (running out of records ends the search,
    it is not an error); on an error the cell [*last] is not written; on
    success the stored timestamp is not 0 unless the clock itself reads 0.
    And the call does return: when following the records from time 0 ends
    after [n] loads, [n] rounds are enough, an error met on the way is
    returned with [*last] untouched, and otherwise the result is the time
    reached last, or the clock reading when that time is 0. *)
Theorem last_timestamp_result (ctx : kdnssec_ctx_t knot_kasp_zone_t) (last : Z) :
  (forall (fuel : nat) (ret : knot_error) (last' : Z),
     key_records_last_timestamp fuel ctx last = Some (ret, last') ->
     ret <> KNOT_ENOENT /\
     (ret <> KNOT_EOK -> last' = last) /\
     (ret = KNOT_EOK -> knot_time <> 0 -> last' <> 0)) /\
  (forall (n fuel : nat) (out : loop_exit),
     walk ctx 0 n out -> (n <= fuel)%nat ->
     key_records_last_timestamp fuel ctx last
     = Some (match out with
             | Returned ret => (ret, last)
             | Broke from => (KNOT_EOK, if from =? 0 then knot_time else from)
             end)).
Proof.
  split.
  - intros fuel ret last'. unfold key_records_last_timestamp.
    destruct (last_timestamp_loop fuel ctx 0) as [[e | from] | ] eqn:E;
      [ | | discriminate ].
    + intros H. inversion H; subst ret last'.
      destruct (last_timestamp_loop_exit ctx fuel 0 e E) as [Hok Hent].
      repeat split; [ exact Hent | contradiction ].
    + intros H. inversion H; subst ret last'.
      split; [ discriminate | split; [ intros Hne; contradiction Hne; reflexivity | ] ].
      intros _ Hclock. destruct (Z.eqb_spec from 0); assumption.
  - intros n fuel out Hwalk Hfuel. unfold key_records_last_timestamp.
    rewrite (last_timestamp_loop_walk ctx 0 n out Hwalk fuel Hfuel).
    destruct out; reflexivity.
Qed.

End LastTimestamp.

(** A database with record sets at times 10 and 20: loading at a time
    names the next one, and 0 after the last. *)
Definition toy_load_offline (db : unit) (zone : knot_dname_t) (from : Z)
    : knot_error * Z * Z :=
  if from =? 0 then (KNOT_EOK, 0, 10)
  else if from =? 10 then (KNOT_EOK, 10, 20)
  else if from =? 20 then (KNOT_EOK, 20, 0)
  else (KNOT_ENOENT, from, 0).

(** The search ends at time 20 after three loads. *)
Lemma last_timestamp_result_witness :
  key_records_last_timestamp toy_zone (fun _ => example_apex) unit (fun _ => tt)
    toy_load_offline 1000 3 toy_kctx 0
  = Some (KNOT_EOK, 20).
Proof.
  apply (proj2 (last_timestamp_result toy_zone (fun _ => example_apex) unit
                  (fun _ => tt) toy_load_offline 1000 toy_kctx 0)
           3%nat 3%nat (Broke 20)); [ | apply Nat.le_refl ].
  apply (walk_next _ _ _ _ _ _ 0 0 10 2%nat (Broke 20) eq_refl); [ discriminate | ].
  apply (walk_next _ _ _ _ _ _ 10 10 20 1%nat (Broke 20) eq_refl); [ discriminate | ].
  apply (walk_last _ _ _ _ _ _ 20 20 eq_refl).
Defined.

(** *** Serialization of key records *)

Import Wire Serialization.

(** [key_records_serialized_size] *)
Definition key_records_serialized_size (r : key_records_t) : nat :=
  (rrset_serialized_size (dnskey r) + rrset_serialized_size (cdnskey r)
   + rrset_serialized_size (cds r) + rrset_serialized_size (rrsig r))%nat.

(** [key_records_serialize]: the code and the wire context after the call. *)
Definition key_records_serialize (wire : wire_ctx_t) (r : key_records_t)
    : knot_error * wire_ctx_t :=
  let '(ret, wire) := serialize_rrset wire (dnskey r) in
  let '(ret, wire) :=
    if knot_is_eok ret then serialize_rrset wire (cdnskey r) else (ret, wire) in
  let '(ret, wire) :=
    if knot_is_eok ret then serialize_rrset wire (cds r) else (ret, wire) in
  let '(ret, wire) :=
    if knot_is_eok ret then serialize_rrset wire (rrsig r) else (ret, wire) in
  (ret, wire).

(** [key_records_deserialize]: the code, the wire context and the key
    records after the call. *)
Definition key_records_deserialize (wire : wire_ctx_t) (r : key_records_t)
    : knot_error * wire_ctx_t * key_records_t :=
  let '(ret, wire, rr) := deserialize_rrset wire (dnskey r) in
  let r := set_family r F_DNSKEY rr in
  let '(ret, wire, r) :=
    if knot_is_eok ret
    then let '(ret, wire, rr) := deserialize_rrset wire (cdnskey r) in
         (ret, wire, set_family r F_CDNSKEY rr)
    else (ret, wire, r) in
  let '(ret, wire, r) :=
    if knot_is_eok ret
    then let '(ret, wire, rr) := deserialize_rrset wire (cds r) in
         (ret, wire, set_family r F_CDS rr)
    else (ret, wire, r) in
  let '(ret, wire, r) :=
    if knot_is_eok ret
    then let '(ret, wire, rr) := deserialize_rrset wire (rrsig r) in
         (ret, wire, set_family r F_RRSIG rr)
    else (ret, wire, r) in
  (ret, wire, r).

(** The four encodings in the fixed order DNSKEY, CDNSKEY, CDS, RRSIG. *)
Definition key_records_encoding (r : key_records_t) : list byte :=
  encode_rrset (dnskey r) ++ encode_rrset (cdnskey r)
  ++ encode_rrset (cds r) ++ encode_rrset (rrsig r).

Definition key_records_wf (r : key_records_t) : Prop :=
  forall f, rrset_wf (get_family r f).

Lemma length_key_records_encoding (r : key_records_t) :
  length (key_records_encoding r) = key_records_serialized_size r.
Proof.
  unfold key_records_encoding, key_records_serialized_size.
  rewrite !length_app, !length_encode_rrset. lia.
Qed.

Lemma key_records_serialize_at (sz : nat) (done rest : list byte) (r : key_records_t) :
  sz = (length done + length rest)%nat ->
  (key_records_serialized_size r <= length rest)%nat ->
  key_records_serialize (at_pos sz false done rest) r
  = (KNOT_EOK,
     at_pos sz false (done ++ key_records_encoding r)
       (skipn (key_records_serialized_size r) rest)).
Proof.
  intros Hsz Hroom. unfold key_records_serialize, key_records_serialized_size in *.
  rewrite serialize_rrset_at by (auto; lia). simpl knot_is_eok. cbv iota.
  rewrite serialize_rrset_at;
    [ | rewrite length_app, length_encode_rrset, length_skipn; lia
      | rewrite length_skipn; lia ].
  simpl knot_is_eok. cbv iota.
  rewrite serialize_rrset_at;
    [ | rewrite !length_app, !length_encode_rrset, !length_skipn; lia
      | rewrite !length_skipn; lia ].
  simpl knot_is_eok. cbv iota.
  rewrite serialize_rrset_at;
    [ | rewrite !length_app, !length_encode_rrset, !length_skipn; lia
      | rewrite !length_skipn; lia ].
  rewrite !skipn_skipn. unfold key_records_encoding. rewrite <- !app_assoc.
  do 3 f_equal. lia.
Qed.

Lemma key_records_deserialize_at (sz : nat) (ro : bool) (done rest : list byte)
    (r target : key_records_t) :
  key_records_wf r ->
  sz = (length done + length (key_records_encoding r ++ rest))%nat ->
  key_records_deserialize (at_pos sz ro done (key_records_encoding r ++ rest)) target
  = (KNOT_EOK, at_pos sz ro (done ++ key_records_encoding r) rest,
     {| dnskey := set_rrs (dnskey target) (rrs (dnskey target) ++ rrs (dnskey r));
        cdnskey := set_rrs (cdnskey target) (rrs (cdnskey target) ++ rrs (cdnskey r));
        cds := set_rrs (cds target) (rrs (cds target) ++ rrs (cds r));
        rrsig := set_rrs (rrsig target) (rrs (rrsig target) ++ rrs (rrsig r)) |}).
Proof.
  intros Hwf Hsz. unfold key_records_deserialize, key_records_encoding in *.
  rewrite <- !app_assoc in *. rewrite !length_app in Hsz.
  rewrite deserialize_rrset_at;
    [ | exact (Hwf F_DNSKEY) | rewrite !length_app; lia ].
  simpl knot_is_eok. cbv iota. cbn [set_family cdnskey].
  rewrite deserialize_rrset_at;
    [ | exact (Hwf F_CDNSKEY) | rewrite !length_app; lia ].
  simpl knot_is_eok. cbv iota. cbn [set_family cds].
  rewrite deserialize_rrset_at;
    [ | exact (Hwf F_CDS) | rewrite !length_app; lia ].
  simpl knot_is_eok. cbv iota. cbn [set_family rrsig].
  pose proof (deserialize_rrset_at sz ro
                (((done ++ encode_rrset (dnskey r)) ++ encode_rrset (cdnskey r))
                 ++ encode_rrset (cds r))
                rest (rrsig r) (rrsig target) (Hwf F_RRSIG)) as Hlast.
  rewrite Hlast by (rewrite !length_app; lia).
  cbn [dnskey cdnskey cds rrsig]. rewrite <- !app_assoc. reflexivity.
Qed.

(** C1: key records that fit the buffer are serialized successfully as
    the encodings of DNSKEY, CDNSKEY, CDS and RRSIG in this order, and
    deserializing the produced bytes into empty key records succeeds and
    yields the same RDATA, byte for byte and in the same order, in each of
    the four families.  This holds for empty and populated families
    alike. *)
Theorem serialize_deserialize (r target : key_records_t) (buf : list byte) :
  key_records_wf r ->
  (key_records_serialized_size r <= length buf)%nat ->
  (forall f, rrs (get_family target f) = []) ->
  let written := key_records_serialize (wire_ctx_init buf (length buf)) r in
  let read := key_records_deserialize
                (wire_ctx_init_const (wire (snd written)) (length buf)) target in
  fst written = KNOT_EOK /\
  wire (snd written)
  = key_records_encoding r ++ skipn (key_records_serialized_size r) buf /\
  fst (fst read) = KNOT_EOK /\
  forall f, rrs (get_family (snd read) f) = rrs (get_family r f).
Proof.
  intros Hwf Hroom Hempty written read. subst written read.
  rewrite wire_ctx_init_at_pos.
  rewrite (key_records_serialize_at (length buf) [] buf r eq_refl Hroom).
  cbn [fst snd wire at_pos app].
  split; [ reflexivity | split; [ reflexivity | ] ].
  rewrite wire_ctx_init_const_at_pos.
  rewrite key_records_deserialize_at;
    [ | exact Hwf
      | rewrite length_app, length_key_records_encoding, length_skipn;
        cbn [length]; lia ].
  cbn [fst snd]. split; [ reflexivity | ].
  intros f. pose proof (Hempty f) as He.
  destruct f; cbn [get_family dnskey cdnskey cds rrsig set_rrs rrs] in *;
    rewrite He; reflexivity.
Qed.

(** The populated example in a 64-byte buffer of zeros, read back into the
    freshly initialised (empty) records. *)
Lemma serialize_deserialize_witness :
  fst (key_records_serialize (wire_ctx_init (repeat "000"%byte 64) 64) example_populated)
  = KNOT_EOK /\
  forall f,
    rrs (get_family
           (snd (key_records_deserialize
                   (wire_ctx_init_const
                      (wire (snd (key_records_serialize
                                    (wire_ctx_init (repeat "000"%byte 64) 64)
                                    example_populated)))
                      64)
                   example_records)) f)
    = rrs (get_family example_populated f).
Proof.
  assert (Hwf : key_records_wf example_populated).
  { intros f. destruct f; split; simpl; repeat constructor; unfold rdata_wf; simpl; lia. }
  assert (Hroom : (key_records_serialized_size example_populated
                   <= length (repeat "000"%byte 64))%nat).
  { vm_compute. lia. }
  assert (Hempty : forall f, rrs (get_family example_records f) = []).
  { intros f. destruct f; reflexivity. }
  pose proof (serialize_deserialize example_populated example_records
                (repeat "000"%byte 64) Hwf Hroom Hempty) as (Hw & _ & _ & Hr).
  split; [ exact Hw | exact Hr ].
Defined.

(** Truncation: the same bytes cut after the DNSKEY family and a half do
    not deserialize; the decode error is returned. *)
Example deserialize_truncated :
  fst (fst (key_records_deserialize
              (wire_ctx_init_const
                 (firstn 10 (key_records_encoding example_populated)) 10)
              example_records))
  = KNOT_EMALF.
Proof. vm_compute. reflexivity. Qed.

End KeyRecords.
